(** * Tic-tac-toe: game-state engine and computer opponent of [script.js]

    A shallow embedding of the game logic of [src/script.js]: the global
    game variables become a record that is passed explicitly, every
    JavaScript function becomes a Rocq function on that record, and the
    browser's event loop becomes a list of events folded over the state.

    What is modelled of the page:
    - the four game variables [board], [currentPlayer], [gameActive],
      [gameMode];
    - [statusDisplay.textContent], the banner written by [updateStatus];
    - the set of cells that carry the CSS class [win-highlight];
    - the [setTimeout(makeComputerMove, 700)] callbacks that are scheduled
      and have not run yet.
    The text and the [x]/[o] classes of the cells mirror [board] and the
    visibility of the two screens plays no part in the game logic; they are
    left out. *)

From Stdlib Require Import ZArith QArith Qround Lia Sorted.
From stdpp Require Import base list strings.

Close Scope Q_scope.
Local Open Scope Z_scope.

(** ** JavaScript values and arrays *)

(** Reading [board[i]]: an index outside the array reads [undefined],
    which is [None] here. *)
Definition board_at (b : list string) (i : Z) : option string :=
  if i <? 0 then None else b !! Z.to_nat i.

(** Writing [board[i] = v].  Every write of the program is at an index whose
    cell was just read as the empty string (lemma [board_at_empty_in_range]
    below), hence inside the array; outside it this model leaves the array
    as it is, where JavaScript would grow it. *)
Definition board_put (b : list string) (i : Z) (v : string) : list string :=
  if i <? 0 then b else <[Z.to_nat i := v]> b.

(** Strict equality [x === y] between values that are strings or
    [undefined]. *)
Definition js_eq (x y : option string) : bool := bool_decide (x = y).

(** [board[i] === s] for a string [s]. *)
Definition cell_is (b : list string) (i : Z) (s : string) : bool :=
  js_eq (board_at b i) (Some s).

(** ** Game state (lines 13-17) *)

Record Game := mkGame {
  board : list string;
  currentPlayer : string;
  gameActive : bool;
  gameMode : string;
  statusText : string;
  winHighlight : list Z;
  pendingTimers : nat
}.

Definition emptyBoard : list string :=
  [""; ""; ""; ""; ""; ""; ""; ""; ""]%string.

(** The values of the variables when the script has been loaded. *)
Definition scriptLoaded : Game :=
  mkGame emptyBoard "X" true "human-human" "" [] 0.

Definition with_board (b : list string) (g : Game) : Game :=
  mkGame b (currentPlayer g) (gameActive g) (gameMode g) (statusText g)
         (winHighlight g) (pendingTimers g).

Definition with_currentPlayer (p : string) (g : Game) : Game :=
  mkGame (board g) p (gameActive g) (gameMode g) (statusText g)
         (winHighlight g) (pendingTimers g).

Definition with_gameActive (a : bool) (g : Game) : Game :=
  mkGame (board g) (currentPlayer g) a (gameMode g) (statusText g)
         (winHighlight g) (pendingTimers g).

Definition with_gameMode (m : string) (g : Game) : Game :=
  mkGame (board g) (currentPlayer g) (gameActive g) m (statusText g)
         (winHighlight g) (pendingTimers g).

Definition with_winHighlight (h : list Z) (g : Game) : Game :=
  mkGame (board g) (currentPlayer g) (gameActive g) (gameMode g)
         (statusText g) h (pendingTimers g).

Definition with_pendingTimers (n : nat) (g : Game) : Game :=
  mkGame (board g) (currentPlayer g) (gameActive g) (gameMode g)
         (statusText g) (winHighlight g) n.

(** [updateStatus] (lines 35-37). *)
Definition updateStatus (message : string) (g : Game) : Game :=
  mkGame (board g) (currentPlayer g) (gameActive g) (gameMode g) message
         (winHighlight g) (pendingTimers g).

Definition turnMessage (p : string) : string := "Player " +:+ p +:+ "'s Turn".
Definition winMessage (p : string) : string := "Player " +:+ p +:+ " Wins!".
Definition drawMessage : string := "It's a Draw!".

(** [winningCombinations] (lines 20-29); a three-element array is a triple. *)
Definition Line : Type := Z * Z * Z.

Definition winningCombinations : list Line :=
  [ (0, 1, 2); (3, 4, 5); (6, 7, 8);
    (0, 3, 6); (1, 4, 7); (2, 5, 8);
    (0, 4, 8); (2, 4, 6) ].

(** [initializeGame] (lines 42-53). *)
Definition initializeGame (g : Game) : Game :=
  let g := with_board emptyBoard g in
  let g := with_currentPlayer "X" g in
  let g := with_gameActive true g in
  let g := updateStatus (turnMessage (currentPlayer g)) g in
  with_winHighlight [] g.

(** ** Win and draw evaluation (lines 101-133) *)

(** The body of the loop of [checkForWin] for one combination: [false] is
    [continue] or a failed comparison, [true] is the branch that sets
    [roundWon] and breaks. *)
Definition lineWins (b : list string) (l : Line) : bool :=
  let '(i, j, k) := l in
  let a := board_at b i in
  let b' := board_at b j in
  let c := board_at b k in
  if js_eq a (Some "") || js_eq b' (Some "") || js_eq c (Some "") then false
  else js_eq a b' && js_eq b' c.

(** The loop of [checkForWin]: the combination at which it breaks. *)
Fixpoint firstWinningLine (b : list string) (ls : list Line) : option Line :=
  match ls with
  | [] => None
  | l :: rest => if lineWins b l then Some l else firstWinningLine b rest
  end.

(** [cells[index].classList.add('win-highlight')]: a class list is a set. *)
Definition addHighlight (index : Z) (h : list Z) : list Z :=
  if bool_decide (index ∈ h) then h else h ++ [index].

Definition checkForWin (g : Game) : bool * Game :=
  match firstWinningLine (board g) winningCombinations with
  | Some (i, j, k) =>
      (true,
       with_winHighlight
         (addHighlight k (addHighlight j (addHighlight i (winHighlight g)))) g)
  | None => (false, g)
  end.

Definition boardFull (b : list string) : bool :=
  forallb (fun cell => negb (bool_decide (cell = ""%string))) b.

Definition checkForDraw (g : Game) : bool * Game :=
  let '(won, g) := checkForWin g in
  (negb won && boardFull (board g), g).

(** ** The computer's move (lines 139-241) *)

Definition computerPlayer : string := "O".
Definition humanPlayer : string := "X".

(** [board.map((cell, index) => cell === '' ? index : -1)
         .filter(index => index !== -1)] (line 142). *)
Definition availableCells (b : list string) : list Z :=
  filter (fun index => index ≠ -1)
         (imap (fun index cell =>
                  if bool_decide (cell = ""%string) then Z.of_nat index else -1)
               b).

(** [findWinningOrBlockingMove] (lines 155-168), the loop over the
    combinations from [ls] on. *)
Fixpoint findWinningOrBlockingMoveFrom (b : list string)
    (playerToCheck : string) (ls : list Line) : Z :=
  match ls with
  | [] => -1
  | (a, b', c) :: rest =>
      let line := [board_at b a; board_at b b'; board_at b c] in
      if (length (filter (fun cell => cell = Some playerToCheck) line) =? 2)%nat
         && bool_decide (Some ""%string ∈ line)
      then
        if cell_is b a "" && js_eq (Some playerToCheck) (board_at b b')
           && js_eq (Some playerToCheck) (board_at b c) then a
        else if cell_is b b' "" && js_eq (Some playerToCheck) (board_at b a)
                && js_eq (Some playerToCheck) (board_at b c) then b'
        else if cell_is b c "" && js_eq (Some playerToCheck) (board_at b a)
                && js_eq (Some playerToCheck) (board_at b b') then c
        else findWinningOrBlockingMoveFrom b playerToCheck rest
      else findWinningOrBlockingMoveFrom b playerToCheck rest
  end.

Definition findWinningOrBlockingMove (b : list string) (playerToCheck : string)
    : Z :=
  findWinningOrBlockingMoveFrom b playerToCheck winningCombinations.

(** The loops of rules 5 and 6 (lines 194-199 and 205-210): the first
    position of [positions] whose cell is empty, [bestMove] when there is
    none. *)
Fixpoint firstEmptyOf (b : list string) (positions : list Z) (bestMove : Z)
    : Z :=
  match positions with
  | [] => bestMove
  | p :: rest => if cell_is b p "" then p else firstEmptyOf b rest bestMove
  end.

(** Rules 1 to 6 (lines 170-211): the value of [bestMove] when line 213 is
    reached. *)
Definition strategicMove (b : list string) : Z :=
  let bestMove := findWinningOrBlockingMove b computerPlayer in
  let bestMove :=
    if bestMove =? -1 then findWinningOrBlockingMove b humanPlayer
    else bestMove in
  let bestMove :=
    if (bestMove =? -1) && cell_is b 4 "" then 4 else bestMove in
  let bestMove :=
    if bestMove =? -1 then
      if cell_is b 0 humanPlayer && cell_is b 8 "" then 8
      else if cell_is b 2 humanPlayer && cell_is b 6 "" then 6
      else if cell_is b 6 humanPlayer && cell_is b 2 "" then 2
      else if cell_is b 8 humanPlayer && cell_is b 0 "" then 0
      else bestMove
    else bestMove in
  let bestMove :=
    if bestMove =? -1 then firstEmptyOf b [0; 2; 6; 8] bestMove
    else bestMove in
  let bestMove :=
    if bestMove =? -1 then firstEmptyOf b [1; 3; 5; 7] bestMove
    else bestMove in
  bestMove.

(** [availableCells[Math.floor(Math.random() * availableCells.length)]]
    (line 215); [rnd] is the number that [Math.random()] returns, which lies
    in the interval from 0 (included) to 1 (excluded), so that the index is
    inside [availableCells]. *)
Definition randomCell (available : list Z) (rnd : Q) : Z :=
  let index := Qfloor (rnd * inject_Z (Z.of_nat (length available))) in
  default (-1) (available !! Z.to_nat index).

(** The choice of the move (lines 150-216): rules 1 to 6, then the random
    fallback. *)
Definition chooseMove (b : list string) (available : list Z) (rnd : Q) : Z :=
  let bestMove := strategicMove b in
  if (bestMove =? -1) && (0 <? length available)%nat
  then randomCell available rnd
  else bestMove.

(** The end of a move (lines 225-239 and, in [handleCellClick], 74-88):
    win check, then draw check, then [continue_]. *)
Definition settle (mover : string) (continue_ : Game -> Game) (g : Game)
    : Game :=
  let '(won, g) := checkForWin g in
  if won then with_gameActive false (updateStatus (winMessage mover) g)
  else
    let '(draw, g) := checkForDraw g in
    if draw then with_gameActive false (updateStatus drawMessage g)
    else continue_ g.

Definition makeComputerMove (g : Game) (rnd : Q) : Game :=
  if negb (gameActive g) then g
  else
    let available := availableCells (board g) in
    if (length available =? 0)%nat then snd (checkForDraw g)
    else
      let bestMove := chooseMove (board g) available rnd in
      if bestMove =? -1 then g
      else
        let g := with_board (board_put (board g) bestMove computerPlayer) g in
        settle computerPlayer
          (fun g =>
             let g := with_currentPlayer humanPlayer g in
             updateStatus (turnMessage (currentPlayer g)) g)
          g.

(** ** A click on a cell (lines 59-95) *)

Definition handleCellClick (g : Game) (clickedCellIndex : Z) : Game :=
  if negb (cell_is (board g) clickedCellIndex "")
     || negb (gameActive g)
     || (bool_decide (gameMode g = "human-computer"%string)
         && bool_decide (currentPlayer g = "O"%string))
  then g
  else
    let g :=
      with_board (board_put (board g) clickedCellIndex (currentPlayer g)) g in
    settle (currentPlayer g)
      (fun g =>
         let g :=
           with_currentPlayer
             (if bool_decide (currentPlayer g = "X"%string) then "O" else "X")
             g in
         let g := updateStatus (turnMessage (currentPlayer g)) g in
         if bool_decide (gameMode g = "human-computer"%string)
            && bool_decide (currentPlayer g = "O"%string)
            && gameActive g
         then with_pendingTimers (S (pendingTimers g)) g
         else g)
      g.

(** ** The two screens (lines 246-264) *)

Definition showModeSelectionScreen (g : Game) : Game :=
  initializeGame (with_gameMode "human-human" g).

(** [mode] is the value of the radio button that is checked. *)
Definition showGameScreen (g : Game) (mode : string) : Game :=
  initializeGame (with_gameMode mode g).

(** ** The event loop (lines 266-282) *)

Inductive Event : Type :=
| CellClick (clickedCellIndex : Z)
| StartGame (mode : string)
| BackToModeSelection
| TimerFires (rnd : Q).

(** One turn of the event loop.  A timer fires only when one is pending. *)
Definition step (g : Game) (e : Event) : Game :=
  match e with
  | CellClick i => handleCellClick g i
  | StartGame mode => showGameScreen g mode
  | BackToModeSelection => showModeSelectionScreen g
  | TimerFires rnd =>
      match pendingTimers g with
      | O => g
      | S n => makeComputerMove (with_pendingTimers n g) rnd
      end
  end.

Definition run (g : Game) (es : list Event) : Game := fold_left step es g.

(** The page once [DOMContentLoaded] has been handled (line 282). *)
Definition pageLoaded : Game := showModeSelectionScreen scriptLoaded.

(** ** Predicates of the statements and sample states *)

(** A cell holds a mark: it reads as a string that is not empty. *)
Definition occupied (b : list string) (i : Z) : Prop :=
  exists x : string, board_at b i = Some x /\ x <> ""%string.

(** A game between two humans after one move each; X is to move. *)
Definition midGame : Game :=
  mkGame ["X"; "O"; ""; ""; ""; ""; ""; ""; ""]%string "X" true "human-human"
         (turnMessage "X") [] 0.

(** A game against the computer after the human has opened in corner 0:
    it is the computer's turn and its move is scheduled. *)
Definition computerToMove : Game :=
  mkGame ["X"; ""; ""; ""; ""; ""; ""; ""; ""]%string "O" true "human-computer"
         (turnMessage "O") [] 1.

(** The board of the first scenario: X holds cells 0 and 1. *)
Definition topRowThreat : list string :=
  ["X"; "X"; ""; ""; ""; ""; ""; ""; ""]%string.

(** The board of the second scenario: O in the centre, X in corner 0. *)
Definition cornerAfterCentre : list string :=
  ["X"; ""; ""; ""; "O"; ""; ""; ""; ""]%string.

(** The second scenario before the human's move: only O in the centre. *)
Definition centreTaken : Game :=
  mkGame [""; ""; ""; ""; "O"; ""; ""; ""; ""]%string "X" true "human-computer"
         (turnMessage "X") [] 0.

(** A game against the computer is started, the human clicks cell 0, which
    schedules the computer's move, and the game is reset before the timer
    has fired. *)
Definition resetWithPendingMove : Game :=
  run pageLoaded
      [StartGame "human-computer"; CellClick 0; BackToModeSelection].

(** The same reset, after which a game between two humans is started. *)
Definition humanGameWithPendingMove : Game :=
  run pageLoaded
      [StartGame "human-computer"; CellClick 0; BackToModeSelection;
       StartGame "human-human"].

(** Three identical marks stand on the cells of a combination. *)
Definition aligned (b : list string) (l : Line) : Prop :=
  let '(i, j, k) := l in
  exists x : string,
    x <> ""%string
    /\ board_at b i = Some x /\ board_at b j = Some x /\ board_at b k = Some x.

(** X holds the diagonal 0, 4, 8 and no combination before it in the
    table. *)
Definition diagonalWon : Game :=
  mkGame ["X"; "O"; "O"; ""; "X"; ""; ""; ""; "X"]%string "X" true
         "human-human" (turnMessage "X") [] 0.

(** Eight cells are taken and X is to move; cell 8 fills the board and
    completes the diagonal 0, 4, 8. *)
Definition lastCellWins : Game :=
  mkGame ["X"; "O"; "X"; "O"; "X"; "O"; "O"; "X"; ""]%string "X" true
         "human-human" (turnMessage "X") [] 0.

(** A value of [bestMove]: no move yet, or the index of an empty cell. *)
Definition pickedEmpty (b : list string) (m : Z) : Prop :=
  m = -1 \/ board_at b m = Some ""%string.

(** The number of marks on the board, which is the number of moves that
    have been carried out since the reset. *)
Definition marks (b : list string) : nat :=
  length (filter (fun cell => cell <> ""%string) b).

(** The player of move [n + 1]: X for the first, third, ... move. *)
Definition playerOfMove (n : nat) : string :=
  if Nat.even n then "X"%string else "O"%string.

(** The events of a game in progress: clicks and timers, no reset. *)
Definition gameEvent (e : Event) : bool :=
  match e with
  | CellClick _ | TimerFires _ => true
  | StartGame _ | BackToModeSelection => false
  end.

(** What holds of the state during a game that was started with no
    deferred move pending: the current player is the one whose turn it is
    by the number of marks, and a deferred move is pending only while it is
    the computer's turn. *)
Record turnInvariant (g : Game) : Prop := mkTurnInvariant {
  inv_turn :
    gameActive g = true -> currentPlayer g = playerOfMove (marks (board g));
  inv_timer :
    pendingTimers g = 0%nat
    \/ (pendingTimers g = 1%nat
        /\ gameMode g = "human-computer"%string
        /\ currentPlayer g = "O"%string)
}.

(** ** Predicates of the further properties *)

(** The three values a cell takes. *)
Definition cellValue (cell : string) : Prop :=
  cell = ""%string \/ cell = "X"%string \/ cell = "O"%string.

(** The two marks. *)
Definition isMark (p : string) : Prop := p = "X"%string \/ p = "O"%string.

(** The three cells of a combination hold the mark [p]. *)
Definition heldBy (b : list string) (p : string) (l : Line) : Prop :=
  let '(i, j, k) := l in
  board_at b i = Some p /\ board_at b j = Some p /\ board_at b k = Some p.

(** The cells that are highlighted for the outcome of the win check. *)
Definition highlightOf (found : option Line) : list Z :=
  match found with
  | Some (i, j, k) => [i; j; k]
  | None => []
  end.

(** Two cells of the combination hold [p] and the third one, [m], is
    empty. *)
Definition threat (b : list string) (p : string) (l : Line) (m : Z) : Prop :=
  let '(i, j, k) := l in
  (m = i /\ board_at b i = Some ""%string
   /\ board_at b j = Some p /\ board_at b k = Some p)
  \/ (m = j /\ board_at b j = Some ""%string
      /\ board_at b i = Some p /\ board_at b k = Some p)
  \/ (m = k /\ board_at b k = Some ""%string
      /\ board_at b i = Some p /\ board_at b j = Some p).

(** What every state of the page satisfies from the first call of
    [initializeGame] on. *)
Record wellFormed (g : Game) : Prop := mkWellFormed {
  wf_length : length (board g) = 9%nat;
  wf_cells : Forall cellValue (board g);
  wf_player : isMark (currentPlayer g);
  wf_active :
    gameActive g = true ->
    firstWinningLine (board g) winningCombinations = None
    /\ boardFull (board g) = false
    /\ winHighlight g = [];
  wf_over :
    gameActive g = false ->
    (exists (p : string) (l : Line),
        isMark p
        /\ statusText g = winMessage p
        /\ firstWinningLine (board g) winningCombinations = Some l
        /\ heldBy (board g) p l
        /\ winHighlight g = highlightOf (Some l))
    \/ (statusText g = drawMessage
        /\ firstWinningLine (board g) winningCombinations = None
        /\ boardFull (board g) = true
        /\ winHighlight g = [])
}.

(** A game against the computer with no deferred move left over: a move
    of the computer is pending exactly while it is O's turn. *)
Record computerGame (g : Game) : Prop := mkComputerGame {
  cg_wellFormed : wellFormed g;
  cg_mode : gameMode g = "human-computer"%string;
  cg_pending :
    (gameActive g = true /\ currentPlayer g = "O"%string
     /\ pendingTimers g = 1%nat)
    \/ ((gameActive g = false \/ currentPlayer g = "X"%string)
        /\ pendingTimers g = 0%nat)
}.

(** A game between two humans that X wins on the top row with the fifth
    move. *)
Definition topRowGame : list Event :=
  [StartGame "human-human"; CellClick 0; CellClick 3; CellClick 1;
   CellClick 4; CellClick 2].

(** A game against the computer in which the human has opened in the
    centre and the move of the computer is pending. *)
Definition centreOpening : list Event :=
  [StartGame "human-computer"; CellClick 4].

(** It is the computer's turn, O holds cells 0 and 1 and cell 2 is
    empty. *)
Definition computerCanWin : Game :=
  mkGame ["O"; "O"; ""; "X"; "X"; ""; "X"; ""; ""]%string "O" true
         "human-computer" (turnMessage "O") [] 0.


(** The indices of [availableCells] counted from [k]: the list that
    [map] and [filter] build from the cells that follow the first [k]. *)
Definition availableFrom (k : nat) (b : list string) : list Z :=
  filter (fun index => index ≠ -1)
         (imap (fun index cell =>
                  if bool_decide (cell = ""%string)
                  then Z.of_nat (k + index) else -1)
               b).

(** A game between two humans just before X completes the top row. *)
Definition beforeTopRow : list Event :=
  [StartGame "human-human"; CellClick 0; CellClick 3; CellClick 1;
   CellClick 4].

(** * Properties *)

(** ** Reading and writing cells *)

Lemma js_eq_true (x y : option string) : js_eq x y = true <-> x = y.
Proof. unfold js_eq. apply bool_decide_eq_true. Qed.

Lemma js_eq_false (x y : option string) : js_eq x y = false <-> x <> y.
Proof. unfold js_eq. apply bool_decide_eq_false. Qed.

Lemma cell_is_true (b : list string) (i : Z) (s : string) :
  cell_is b i s = true <-> board_at b i = Some s.
Proof. unfold cell_is. apply js_eq_true. Qed.

Lemma cell_is_false (b : list string) (i : Z) (s : string) :
  cell_is b i s = false <-> board_at b i <> Some s.
Proof. unfold cell_is. apply js_eq_false. Qed.

(** A cell that reads as a string lies inside the array. *)
Lemma board_at_empty_in_range (b : list string) (i : Z) (x : string) :
  board_at b i = Some x -> 0 <= i < Z.of_nat (length b).
Proof.
  unfold board_at. destruct (Z.ltb_spec i 0) as [Hneg | Hpos]; [discriminate |].
  intros Hlook. apply lookup_lt_Some in Hlook. lia.
Qed.

Lemma board_at_put_same (b : list string) (i : Z) (x v : string) :
  board_at b i = Some x -> board_at (board_put b i v) i = Some v.
Proof.
  intros Hx. pose proof (board_at_empty_in_range _ _ _ Hx) as Hr.
  unfold board_at, board_put in *.
  destruct (Z.ltb_spec i 0); [lia |].
  apply list_lookup_insert_eq. lia.
Qed.

Lemma board_at_put_other (b : list string) (i j : Z) (v : string) :
  0 <= i -> i <> j -> board_at (board_put b i v) j = board_at b j.
Proof.
  intros Hi Hij. unfold board_at, board_put.
  destruct (Z.ltb_spec i 0); [lia |].
  destruct (Z.ltb_spec j 0); [reflexivity |].
  apply list_lookup_insert_ne. lia.
Qed.

Lemma length_board_put (b : list string) (i : Z) (v : string) :
  length (board_put b i v) = length b.
Proof.
  unfold board_put. destruct (i <? 0); [reflexivity | apply length_insert].
Qed.

(** ** Rejected clicks *)

Lemma handleCellClick_guard (g : Game) (i : Z) :
  board_at (board g) i <> Some ""%string
  \/ gameActive g = false
  \/ (gameMode g = "human-computer"%string /\ currentPlayer g = "O"%string) ->
  handleCellClick g i = g.
Proof.
  intros Hguard. unfold handleCellClick.
  destruct Hguard as [Hcell | [Hact | [Hmode Hturn]]].
  - apply cell_is_false in Hcell. rewrite Hcell. reflexivity.
  - rewrite Hact. rewrite orb_true_r. reflexivity.
  - rewrite (bool_decide_eq_true_2 _ Hmode), (bool_decide_eq_true_2 _ Hturn).
    rewrite orb_true_r. reflexivity.
Qed.

(** C4: a click on an occupied cell, or a click that arrives when the game
    is no longer active, is rejected silently: the whole state, and so the
    board, the current player and the status, is left exactly as it was. *)
Theorem handleCellClick_rejects (g : Game) (i : Z) :
  occupied (board g) i \/ gameActive g = false ->
  handleCellClick g i = g
  /\ board (handleCellClick g i) = board g
  /\ currentPlayer (handleCellClick g i) = currentPlayer g
  /\ gameActive (handleCellClick g i) = gameActive g
  /\ statusText (handleCellClick g i) = statusText g.
Proof.
  intros Hreq.
  assert (Hsame : handleCellClick g i = g).
  { apply handleCellClick_guard.
    destruct Hreq as [[x [Hx Hne]] | Hact]; [left | right; left; exact Hact].
    rewrite Hx. intros Heq. injection Heq as ->. apply Hne. reflexivity. }
  rewrite Hsame. repeat split; reflexivity.
Qed.

Lemma handleCellClick_rejects_witness :
  handleCellClick midGame 1 = midGame
  /\ board (handleCellClick midGame 1) = board midGame
  /\ currentPlayer (handleCellClick midGame 1) = currentPlayer midGame
  /\ gameActive (handleCellClick midGame 1) = gameActive midGame
  /\ statusText (handleCellClick midGame 1) = statusText midGame.
Proof.
  apply (handleCellClick_rejects midGame 1).
  left. exists "O"%string. split; [reflexivity | discriminate].
Defined.

(** C9: in the mode human against computer, a click that arrives while it
    is O's turn is ignored, whatever the cell: the state is left exactly as
    it was, so a click never places the computer's mark. *)
Theorem handleCellClick_ignored_on_computer_turn (g : Game) (i : Z) :
  gameMode g = "human-computer"%string ->
  currentPlayer g = "O"%string ->
  handleCellClick g i = g
  /\ board (handleCellClick g i) = board g
  /\ currentPlayer (handleCellClick g i) = currentPlayer g
  /\ gameActive (handleCellClick g i) = gameActive g
  /\ statusText (handleCellClick g i) = statusText g.
Proof.
  intros Hmode Hturn.
  assert (Hsame : handleCellClick g i = g).
  { apply handleCellClick_guard. right; right. split; assumption. }
  rewrite Hsame. repeat split; reflexivity.
Qed.

Lemma handleCellClick_ignored_on_computer_turn_witness :
  handleCellClick computerToMove 4 = computerToMove
  /\ board (handleCellClick computerToMove 4) = board computerToMove
  /\ currentPlayer (handleCellClick computerToMove 4)
     = currentPlayer computerToMove
  /\ gameActive (handleCellClick computerToMove 4) = gameActive computerToMove
  /\ statusText (handleCellClick computerToMove 4) = statusText computerToMove.
Proof.
  apply (handleCellClick_ignored_on_computer_turn computerToMove 4);
    reflexivity.
Defined.

(** ** The two scenarios of the opponent policy *)

(** C6: on the board [X, X, _, _, _, _, _, _, _] the policy of the computer
    (mark O against mark X) answers 2: no combination holds two O, the top
    row holds two X and an empty third cell, and the block rule returns
    that cell; the number drawn by [Math.random] plays no part. *)
Theorem chooseMove_blocks_top_row (rnd : Q) :
  findWinningOrBlockingMove topRowThreat computerPlayer = -1
  /\ findWinningOrBlockingMove topRowThreat humanPlayer = 2
  /\ strategicMove topRowThreat = 2
  /\ chooseMove topRowThreat (availableCells topRowThreat) rnd = 2.
Proof. repeat split; vm_compute; reflexivity. Qed.

(** C7: on the board that holds O in the centre and X in corner 0 the
    policy answers 8: neither the win rule nor the block rule finds a
    combination, the centre is taken, and the first pair of the
    opposite-corner rule (0 against 8) applies.  Played through the page:
    the human clicks cell 0 on the board that holds only O in the centre,
    the timer fires, and O stands in cell 8. *)
Theorem chooseMove_takes_opposite_corner (rnd : Q) :
  findWinningOrBlockingMove cornerAfterCentre computerPlayer = -1
  /\ findWinningOrBlockingMove cornerAfterCentre humanPlayer = -1
  /\ cell_is cornerAfterCentre 4 "" = false
  /\ chooseMove cornerAfterCentre (availableCells cornerAfterCentre) rnd = 8
  /\ board (handleCellClick centreTaken 0) = cornerAfterCentre
  /\ board (run centreTaken [CellClick 0; TimerFires rnd])
     = ["X"; ""; ""; ""; "O"; ""; ""; ""; "O"]%string.
Proof. repeat split; vm_compute; reflexivity. Qed.

(** ** A deferred computer move that outlives a reset *)

(** C1 (the code departs from the claim): the deferred move that was
    scheduled before the reset still runs after it.  [makeComputerMove]
    only tests [gameActive], which the reset has set to [true] again, so
    the call is not a no-op: it writes O into the centre of the freshly
    reset board, in the mode human against human.  The same holds for a
    call of [makeComputerMove] after any reset whatever. *)
Theorem stale_computer_move_marks_reset_board (rnd : Q) :
  pendingTimers resetWithPendingMove = 1%nat
  /\ board resetWithPendingMove = emptyBoard
  /\ gameMode resetWithPendingMove = "human-human"%string
  /\ currentPlayer resetWithPendingMove = "X"%string
  /\ gameActive resetWithPendingMove = true
  /\ board (step resetWithPendingMove (TimerFires rnd))
     = [""; ""; ""; ""; "O"; ""; ""; ""; ""]%string
  /\ board (step resetWithPendingMove (TimerFires rnd))
     <> board resetWithPendingMove
  /\ (forall g : Game,
        board (makeComputerMove (showModeSelectionScreen g) rnd)
        = [""; ""; ""; ""; "O"; ""; ""; ""; ""]%string).
Proof.
  repeat split; try (vm_compute; reflexivity).
  vm_compute. discriminate.
Qed.

(** C5 (the code departs from the claim, through the defect of C1): in the
    game that follows the reset the first move that is carried out is the
    deferred computer move.  It places O while [currentPlayer] is X and
    leaves [currentPlayer] at X, so X is the current player before the
    first move and again before the second, which the human then makes
    with X. *)
Theorem stale_computer_move_breaks_alternation (rnd : Q) :
  let g0 := humanGameWithPendingMove in
  let g1 := step g0 (TimerFires rnd) in
  let g2 := step g1 (CellClick 0) in
  board g0 = emptyBoard
  /\ currentPlayer g0 = "X"%string /\ gameActive g0 = true
  /\ board g1 = [""; ""; ""; ""; "O"; ""; ""; ""; ""]%string
  /\ currentPlayer g1 = "X"%string /\ gameActive g1 = true
  /\ board g2 = ["X"; ""; ""; ""; "O"; ""; ""; ""; ""]%string
  /\ currentPlayer g2 = "O"%string /\ gameActive g2 = true.
Proof. repeat split; vm_compute; reflexivity. Qed.

(** ** Win evaluation *)

Lemma board_at_is_Some (b : list string) (i : Z) :
  0 <= i < Z.of_nat (length b) -> exists x : string, board_at b i = Some x.
Proof.
  intros Hr. unfold board_at. destruct (Z.ltb_spec i 0); [lia |].
  apply lookup_lt_is_Some_2. lia.
Qed.

Lemma winningCombinations_in_range (l : Line) :
  l ∈ winningCombinations ->
  let '(i, j, k) := l in 0 <= i < 9 /\ 0 <= j < 9 /\ 0 <= k < 9.
Proof.
  unfold winningCombinations. intros Hin.
  repeat (apply elem_of_cons in Hin as [-> | Hin]; [lia |]).
  apply elem_of_nil in Hin. contradiction.
Qed.

Lemma lineWins_aligned (b : list string) (l : Line) :
  length b = 9%nat -> l ∈ winningCombinations ->
  lineWins b l = true <-> aligned b l.
Proof.
  intros Hlen Hin. apply winningCombinations_in_range in Hin.
  destruct l as [[i j] k]. destruct Hin as (Hi & Hj & Hk).
  destruct (board_at_is_Some b i) as [x Hx]; [lia |].
  destruct (board_at_is_Some b j) as [y Hy]; [lia |].
  destruct (board_at_is_Some b k) as [z Hz]; [lia |].
  unfold lineWins, aligned. rewrite Hx, Hy, Hz. split.
  - destruct (js_eq (Some x) (Some "") || js_eq (Some y) (Some "")
              || js_eq (Some z) (Some "")) eqn:Hempty; [discriminate |].
    intros Hsame. apply andb_true_iff in Hsame as [Hxy Hyz].
    apply js_eq_true in Hxy, Hyz. injection Hxy as <-. injection Hyz as <-.
    apply orb_false_iff in Hempty as [Hempty _].
    apply orb_false_iff in Hempty as [Hempty _].
    apply js_eq_false in Hempty.
    exists x. repeat split; try reflexivity. congruence.
  - intros (w & Hw & Hxw & Hyw & Hzw).
    injection Hxw as ->. injection Hyw as ->. injection Hzw as ->.
    assert (Hne : js_eq (Some w) (Some "") = false).
    { apply js_eq_false. congruence. }
    rewrite Hne. simpl. apply andb_true_iff. split; apply js_eq_true; reflexivity.
Qed.

(** The loop returns the first combination of the list that wins. *)
Lemma firstWinningLine_Some (b : list string) (ls : list Line) (l : Line) :
  firstWinningLine b ls = Some l <->
  exists earlier later : list Line,
    ls = earlier ++ l :: later
    /\ lineWins b l = true
    /\ Forall (fun l' => lineWins b l' = false) earlier.
Proof.
  induction ls as [| l0 rest IH]; simpl.
  - split; [discriminate |].
    intros (earlier & later & Heq & _). destruct earlier; discriminate.
  - destruct (lineWins b l0) eqn:Hl0.
    + split.
      * intros [= <-]. exists [], rest. repeat split; [exact Hl0 | constructor].
      * intros (earlier & later & Heq & Hl & Hearlier).
        destruct earlier as [| e earlier]; simpl in Heq.
        -- congruence.
        -- injection Heq as <- _. inversion Hearlier; congruence.
    + rewrite IH. split.
      * intros (earlier & later & -> & Hl & Hearlier).
        exists (l0 :: earlier), later. repeat split; [exact Hl |].
        constructor; assumption.
      * intros (earlier & later & Heq & Hl & Hearlier).
        destruct earlier as [| e earlier]; simpl in Heq.
        -- injection Heq as -> _. congruence.
        -- injection Heq as <- ->. inversion Hearlier; subst.
           exists earlier, later. repeat split; assumption.
Qed.

Lemma firstWinningLine_None (b : list string) (ls : list Line) :
  firstWinningLine b ls = None <-> forall l, l ∈ ls -> lineWins b l = false.
Proof.
  induction ls as [| l0 rest IH]; simpl.
  - split; [| reflexivity]. intros _ l Hin. apply elem_of_nil in Hin. contradiction.
  - destruct (lineWins b l0) eqn:Hl0.
    + split; [discriminate |]. intros Hall.
      rewrite (Hall l0) in Hl0; [discriminate | left].
    + rewrite IH. split.
      * intros Hall l Hin. apply elem_of_cons in Hin as [-> | Hin]; auto.
      * intros Hall l Hin. apply Hall. right. exact Hin.
Qed.

Lemma lineWins_false_not_aligned (b : list string) (l : Line) :
  length b = 9%nat -> l ∈ winningCombinations ->
  lineWins b l = false <-> ~ aligned b l.
Proof.
  intros Hlen Hin. rewrite <- (lineWins_aligned b l Hlen Hin).
  destruct (lineWins b l); split; congruence.
Qed.

Lemma firstWinningLine_None_aligned (b : list string) :
  length b = 9%nat ->
  firstWinningLine b winningCombinations = None <->
  forall l, l ∈ winningCombinations -> ~ aligned b l.
Proof.
  intros Hlen. rewrite firstWinningLine_None. split; intros Hall l Hin.
  - apply (lineWins_false_not_aligned b l Hlen Hin), Hall, Hin.
  - apply (lineWins_false_not_aligned b l Hlen Hin), Hall, Hin.
Qed.

Lemma firstWinningLine_Some_aligned (b : list string) (l : Line) :
  length b = 9%nat ->
  firstWinningLine b winningCombinations = Some l ->
  l ∈ winningCombinations /\ aligned b l.
Proof.
  intros Hlen Hfirst.
  apply firstWinningLine_Some in Hfirst as (earlier & later & Heq & Hl & _).
  assert (Hin : l ∈ winningCombinations).
  { rewrite Heq. apply elem_of_app. right. left. }
  split; [exact Hin |]. apply (lineWins_aligned b l Hlen Hin), Hl.
Qed.

Lemma checkForWin_fst (g : Game) :
  fst (checkForWin g)
  = bool_decide (is_Some (firstWinningLine (board g) winningCombinations)).
Proof.
  unfold checkForWin.
  destruct (firstWinningLine (board g) winningCombinations) as [[[i j] k] |];
    reflexivity.
Qed.

Lemma checkForWin_board (g : Game) : board (snd (checkForWin g)) = board g.
Proof.
  unfold checkForWin.
  destruct (firstWinningLine (board g) winningCombinations) as [[[i j] k] |];
    reflexivity.
Qed.

Lemma checkForWin_true_iff (g : Game) :
  length (board g) = 9%nat ->
  fst (checkForWin g) = true <->
  exists l, l ∈ winningCombinations /\ aligned (board g) l.
Proof.
  intros Hlen. rewrite checkForWin_fst, bool_decide_eq_true. split.
  - intros [l Hl]. exists l. apply firstWinningLine_Some_aligned; assumption.
  - intros (l & Hin & Hal).
    destruct (firstWinningLine (board g) winningCombinations) eqn:Hfirst;
      [eexists; reflexivity |].
    exfalso.
    exact (proj1 (firstWinningLine_None_aligned _ Hlen) Hfirst l Hin Hal).
Qed.

(** C3: on a board of nine cells [checkForWin] goes through the eight
    combinations in the order row 0, row 1, row 2, column 0, column 1,
    column 2, the diagonal from 0, the diagonal from 2, and reports (answers
    [true] and highlights) the first of them that carries three identical
    marks; it reports no win, and changes nothing, exactly when no
    combination carries three identical marks. *)
Theorem checkForWin_reports_first_line (g : Game) :
  length (board g) = 9%nat ->
  winningCombinations
  = [ (0, 1, 2); (3, 4, 5); (6, 7, 8); (0, 3, 6); (1, 4, 7); (2, 5, 8);
      (0, 4, 8); (2, 4, 6) ]
  /\ (forall (i j k : Z) (earlier later : list Line),
        winningCombinations = earlier ++ (i, j, k) :: later ->
        aligned (board g) (i, j, k) ->
        Forall (fun l' => ~ aligned (board g) l') earlier ->
        checkForWin g
        = (true,
           with_winHighlight
             (addHighlight k (addHighlight j (addHighlight i (winHighlight g))))
             g))
  /\ (fst (checkForWin g) = true <->
      exists l, l ∈ winningCombinations /\ aligned (board g) l)
  /\ ((forall l, l ∈ winningCombinations -> ~ aligned (board g) l) <->
      checkForWin g = (false, g)).
Proof.
  intros Hlen. split; [reflexivity |]. split; [| split].
  - intros i j k earlier later Heq Hal Hearlier.
    assert (Hfirst :
              firstWinningLine (board g) winningCombinations = Some (i, j, k)).
    { apply firstWinningLine_Some. exists earlier, later.
      split; [exact Heq |]. split.
      - apply lineWins_aligned; [exact Hlen | | exact Hal].
        rewrite Heq. apply elem_of_app. right. left.
      - apply Forall_forall. intros l' Hin'.
        apply lineWins_false_not_aligned; [exact Hlen | |].
        + rewrite Heq. apply elem_of_app. left. exact Hin'.
        + rewrite Forall_forall in Hearlier. apply Hearlier, Hin'. }
    unfold checkForWin. rewrite Hfirst. reflexivity.
  - apply checkForWin_true_iff, Hlen.
  - rewrite <- (firstWinningLine_None_aligned _ Hlen). unfold checkForWin.
    destruct (firstWinningLine (board g) winningCombinations)
      as [[[i j] k] |]; split; congruence.
Qed.

Lemma checkForWin_reports_first_line_witness :
  length (board diagonalWon) = 9%nat
  /\ checkForWin diagonalWon
     = (true, with_winHighlight [0; 4; 8] diagonalWon).
Proof.
  split; [reflexivity |].
  apply (proj1 (proj2 (checkForWin_reports_first_line diagonalWon eq_refl))
           0 4 8
           [(0, 1, 2); (3, 4, 5); (6, 7, 8); (0, 3, 6); (1, 4, 7); (2, 5, 8)]
           [(2, 4, 6)]).
  - reflexivity.
  - exists "X"%string. repeat split; [discriminate | ..]; reflexivity.
  - repeat constructor; intros (x & Hx & H1 & H2 & H3); vm_compute in H1, H2, H3;
      congruence.
Defined.

(** ** Draw evaluation and the order of the two checks *)

Lemma boardFull_true (b : list string) :
  boardFull b = true <->
  forall i, 0 <= i < Z.of_nat (length b) -> occupied b i.
Proof.
  unfold boardFull. rewrite forallb_forall. split.
  - intros Hall i Hi. destruct (board_at_is_Some b i Hi) as [x Hx].
    exists x. split; [exact Hx |].
    unfold board_at in Hx. destruct (i <? 0); [discriminate |].
    apply list_elem_of_lookup_2, list_elem_of_In, Hall in Hx.
    apply negb_true_iff, bool_decide_eq_false in Hx. exact Hx.
  - intros Hall x Hin. apply list_elem_of_In, list_elem_of_lookup in Hin as [n Hn].
    apply negb_true_iff, bool_decide_eq_false. intros ->.
    pose proof (lookup_lt_Some _ _ _ Hn) as Hlt.
    destruct (Hall (Z.of_nat n)) as (y & Hy & Hne); [lia |].
    unfold board_at in Hy. destruct (Z.ltb_spec (Z.of_nat n) 0); [lia |].
    rewrite Nat2Z.id in Hy. congruence.
Qed.

Lemma checkForDraw_fst (g : Game) :
  fst (checkForDraw g) = negb (fst (checkForWin g)) && boardFull (board g).
Proof.
  unfold checkForDraw. pose proof (checkForWin_board g) as Hb.
  destruct (checkForWin g) as [won g']. simpl in *. rewrite Hb. reflexivity.
Qed.

Lemma checkForDraw_board (g : Game) : board (snd (checkForDraw g)) = board g.
Proof.
  unfold checkForDraw. pose proof (checkForWin_board g) as Hb.
  destruct (checkForWin g) as [won g']. exact Hb.
Qed.

Lemma winMessage_not_drawMessage (p : string) : winMessage p <> drawMessage.
Proof. unfold winMessage, drawMessage. simpl. discriminate. Qed.

(** A move that completes a combination ends in the win branch. *)
Lemma settle_win (mover : string) (continue_ : Game -> Game) (g : Game) :
  fst (checkForWin g) = true ->
  board (settle mover continue_ g) = board g
  /\ currentPlayer (settle mover continue_ g) = currentPlayer g
  /\ gameActive (settle mover continue_ g) = false
  /\ statusText (settle mover continue_ g) = winMessage mover.
Proof.
  intros Hwon. unfold settle. unfold checkForWin in *.
  destruct (firstWinningLine (board g) winningCombinations) as [[[i j] k] |];
    [| discriminate].
  repeat split; reflexivity.
Qed.

(** C2: on a board of nine cells [checkForDraw] answers [true] exactly when
    no combination carries three identical marks and all nine cells hold a
    mark.  Both move handlers test for a win first: when the mark that a
    click or the computer places completes a combination, on a board that
    is thereby full or not, the game ends with the win banner of the mover
    and never with the draw banner. *)
Theorem checkForDraw_iff_full_without_line (g : Game) :
  length (board g) = 9%nat ->
  (fst (checkForDraw g) = true <->
   (forall l, l ∈ winningCombinations -> ~ aligned (board g) l)
   /\ (forall i, 0 <= i < 9 -> occupied (board g) i))
  /\ (forall i : Z,
        cell_is (board g) i "" = true ->
        gameActive g = true ->
        ~ (gameMode g = "human-computer"%string
           /\ currentPlayer g = "O"%string) ->
        (exists l,
            l ∈ winningCombinations
            /\ aligned (board_put (board g) i (currentPlayer g)) l) ->
        board (handleCellClick g i) = board_put (board g) i (currentPlayer g)
        /\ gameActive (handleCellClick g i) = false
        /\ statusText (handleCellClick g i) = winMessage (currentPlayer g)
        /\ statusText (handleCellClick g i) <> drawMessage)
  /\ (forall rnd : Q,
        gameActive g = true ->
        availableCells (board g) <> [] ->
        chooseMove (board g) (availableCells (board g)) rnd <> -1 ->
        (exists l,
            l ∈ winningCombinations
            /\ aligned
                 (board_put (board g)
                    (chooseMove (board g) (availableCells (board g)) rnd)
                    computerPlayer) l) ->
        board (makeComputerMove g rnd)
        = board_put (board g)
            (chooseMove (board g) (availableCells (board g)) rnd) computerPlayer
        /\ gameActive (makeComputerMove g rnd) = false
        /\ statusText (makeComputerMove g rnd) = winMessage computerPlayer
        /\ statusText (makeComputerMove g rnd) <> drawMessage).
Proof.
  intros Hlen. split; [| split].
  - rewrite checkForDraw_fst, andb_true_iff, negb_true_iff, boardFull_true, Hlen.
    rewrite <- (firstWinningLine_None_aligned _ Hlen), checkForWin_fst.
    rewrite bool_decide_eq_false.
    assert (Hnone : ~ is_Some (firstWinningLine (board g) winningCombinations)
                    <-> firstWinningLine (board g) winningCombinations = None).
    { rewrite <- eq_None_not_Some. reflexivity. }
    rewrite Hnone. reflexivity.
  - intros i Hcell Hact Hturn Hline. unfold handleCellClick.
    rewrite Hcell, Hact. simpl.
    destruct (bool_decide (gameMode g = "human-computer"%string)
              && bool_decide (currentPlayer g = "O"%string)) eqn:Hcomp.
    { exfalso. apply Hturn. apply andb_true_iff in Hcomp as [Hm Hp].
      apply bool_decide_eq_true in Hm, Hp. split; assumption. }
    match goal with
    | |- context [settle ?mover ?k ?g1] =>
        destruct (settle_win mover k g1) as (Hb & _ & Ha & Hs)
    end.
    { apply checkForWin_true_iff; [simpl; rewrite length_board_put; exact Hlen |].
      exact Hline. }
    simpl in *. rewrite Hb, Ha, Hs. repeat split.
    apply winMessage_not_drawMessage.
  - intros rnd Hact Havail Hmove Hline. unfold makeComputerMove.
    rewrite Hact. simpl.
    destruct (availableCells (board g)) as [| c cs] eqn:Hcells;
      [contradiction |].
    simpl length. simpl Nat.eqb. cbv iota.
    destruct (Z.eqb_spec (chooseMove (board g) (c :: cs) rnd) (-1)) as [Heq | _];
      [contradiction |].
    match goal with
    | |- context [settle ?mover ?k ?g1] =>
        destruct (settle_win mover k g1) as (Hb & _ & Ha & Hs)
    end.
    { apply checkForWin_true_iff; [simpl; rewrite length_board_put; exact Hlen |].
      exact Hline. }
    simpl in *. rewrite Hb, Ha, Hs. repeat split.
    apply winMessage_not_drawMessage.
Qed.

Lemma checkForDraw_iff_full_without_line_witness :
  length (board lastCellWins) = 9%nat
  /\ board (handleCellClick lastCellWins 8)
     = ["X"; "O"; "X"; "O"; "X"; "O"; "O"; "X"; "X"]%string
  /\ gameActive (handleCellClick lastCellWins 8) = false
  /\ statusText (handleCellClick lastCellWins 8) = "Player X Wins!"%string
  /\ statusText (handleCellClick lastCellWins 8) <> "It's a Draw!"%string.
Proof.
  split; [reflexivity |].
  apply (proj1 (proj2 (checkForDraw_iff_full_without_line lastCellWins eq_refl))
           8).
  - reflexivity.
  - reflexivity.
  - intros [Hmode _]. discriminate Hmode.
  - exists (0, 4, 8). split.
    + vm_compute. do 6 right. left.
    + exists "X"%string. repeat split; [discriminate | ..]; reflexivity.
Defined.

(** ** The opponent policy only picks empty cells *)

Lemma findWinningOrBlockingMoveFrom_empty
    (b : list string) (p : string) (ls : list Line) :
  pickedEmpty b (findWinningOrBlockingMoveFrom b p ls).
Proof.
  induction ls as [| [[i j] k] rest IH]; simpl.
  - left. reflexivity.
  - repeat match goal with
           | |- context [if ?c then _ else _] => destruct c eqn:?
           end; try exact IH;
      match goal with
      | H : cell_is _ _ _ && _ && _ = true |- _ =>
          apply andb_true_iff in H as [H _];
          apply andb_true_iff in H as [H _];
          apply cell_is_true in H; right; exact H
      end.
Qed.

Lemma firstEmptyOf_empty (b : list string) (ps : list Z) (m0 : Z) :
  firstEmptyOf b ps m0 = m0
  \/ (firstEmptyOf b ps m0 ∈ ps
      /\ board_at b (firstEmptyOf b ps m0) = Some ""%string).
Proof.
  induction ps as [| p rest IH]; simpl.
  - left. reflexivity.
  - destruct (cell_is b p "") eqn:Hp.
    + right. split; [left | apply cell_is_true, Hp].
    + destruct IH as [IH | [IH1 IH2]]; [left; exact IH | right].
      split; [right; exact IH1 | exact IH2].
Qed.

Lemma firstEmptyOf_finds (b : list string) (ps : list Z) (m0 p : Z) :
  p ∈ ps -> board_at b p = Some ""%string ->
  board_at b (firstEmptyOf b ps m0) = Some ""%string.
Proof.
  induction ps as [| q rest IH]; simpl; intros Hin Hp.
  - apply elem_of_nil in Hin. contradiction.
  - destruct (cell_is b q "") eqn:Hq; [apply cell_is_true, Hq |].
    apply elem_of_cons in Hin as [-> | Hin]; [| exact (IH Hin Hp)].
    apply cell_is_false in Hq. contradiction.
Qed.

(** Reduces the tests of [bestMove] against -1 whose outcome is known. *)
Ltac known_tests :=
  repeat first
    [ progress change (-1 =? -1) with true
    | progress change (0 =? -1) with false
    | progress change (2 =? -1) with false
    | progress change (4 =? -1) with false
    | progress change (6 =? -1) with false
    | progress change (8 =? -1) with false ];
  cbn [andb]; cbv iota.

Lemma strategicMove_keeps (b : list string) :
  let m2 :=
    if findWinningOrBlockingMove b computerPlayer =? -1
    then findWinningOrBlockingMove b humanPlayer
    else findWinningOrBlockingMove b computerPlayer in
  m2 <> -1 -> strategicMove b = m2.
Proof.
  intros m2 Hne. unfold strategicMove. cbv zeta. fold m2.
  apply Z.eqb_neq in Hne.
  repeat (rewrite Hne; cbn [andb]; cbv iota). reflexivity.
Qed.

Lemma strategicMove_empty (b : list string) : pickedEmpty b (strategicMove b).
Proof.
  pose proof (strategicMove_keeps b) as Hkeep. cbv zeta in Hkeep.
  pose proof (findWinningOrBlockingMoveFrom_empty b computerPlayer
                winningCombinations) as Hwin.
  pose proof (findWinningOrBlockingMoveFrom_empty b humanPlayer
                winningCombinations) as Hblock.
  fold (findWinningOrBlockingMove b computerPlayer) in Hwin.
  fold (findWinningOrBlockingMove b humanPlayer) in Hblock.
  revert Hkeep. unfold strategicMove. cbv zeta.
  set (m2 := if findWinningOrBlockingMove b computerPlayer =? -1
             then findWinningOrBlockingMove b humanPlayer
             else findWinningOrBlockingMove b computerPlayer).
  assert (H2 : pickedEmpty b m2).
  { unfold m2. destruct (_ =? -1); assumption. }
  clearbody m2. clear Hwin Hblock. intros Hkeep.
  destruct (Z.eq_dec m2 (-1)) as [Heq2 | Hne2];
    [subst m2; clear Hkeep | rewrite (Hkeep Hne2); exact H2].
  known_tests.
  destruct (cell_is b 4 "") eqn:H4.
  { known_tests. right. apply cell_is_true, H4. }
  known_tests.
  destruct (cell_is b 0 humanPlayer && cell_is b 8 "") eqn:H08.
  { known_tests. right. apply andb_true_iff in H08 as [_ H].
    apply cell_is_true, H. }
  destruct (cell_is b 2 humanPlayer && cell_is b 6 "") eqn:H26.
  { known_tests. right. apply andb_true_iff in H26 as [_ H].
    apply cell_is_true, H. }
  destruct (cell_is b 6 humanPlayer && cell_is b 2 "") eqn:H62.
  { known_tests. right. apply andb_true_iff in H62 as [_ H].
    apply cell_is_true, H. }
  destruct (cell_is b 8 humanPlayer && cell_is b 0 "") eqn:H80.
  { known_tests. right. apply andb_true_iff in H80 as [_ H].
    apply cell_is_true, H. }
  known_tests.
  destruct (firstEmptyOf_empty b [0; 2; 6; 8] (-1)) as [-> | [_ H5]].
  2:{ destruct (Z.eqb_spec (firstEmptyOf b [0; 2; 6; 8] (-1)) (-1)) as [Heq | _].
      - rewrite Heq in H5. discriminate H5.
      - right. exact H5. }
  known_tests.
  destruct (firstEmptyOf_empty b [1; 3; 5; 7] (-1)) as [-> | [_ H6]].
  - left. reflexivity.
  - right. exact H6.
Qed.

(** On nine cells, rules 3, 5 and 6 between them look at every cell. *)
Lemma strategicMove_found (b : list string) :
  length b = 9%nat ->
  (exists i, board_at b i = Some ""%string) ->
  strategicMove b <> -1.
Proof.
  intros Hlen [i Hi]. pose proof (board_at_empty_in_range _ _ _ Hi) as Hr.
  rewrite Hlen in Hr.
  pose proof (strategicMove_keeps b) as Hkeep. cbv zeta in Hkeep.
  revert Hkeep. unfold strategicMove. cbv zeta.
  set (m2 := if findWinningOrBlockingMove b computerPlayer =? -1
             then findWinningOrBlockingMove b humanPlayer
             else findWinningOrBlockingMove b computerPlayer).
  clearbody m2. intros Hkeep.
  destruct (Z.eq_dec m2 (-1)) as [Heq2 | Hne2];
    [subst m2; clear Hkeep | rewrite (Hkeep Hne2); exact Hne2].
  known_tests.
  destruct (cell_is b 4 "") eqn:H4; [known_tests; discriminate |].
  known_tests.
  destruct (cell_is b 0 humanPlayer && cell_is b 8 "");
    [known_tests; discriminate |].
  destruct (cell_is b 2 humanPlayer && cell_is b 6 "");
    [known_tests; discriminate |].
  destruct (cell_is b 6 humanPlayer && cell_is b 2 "");
    [known_tests; discriminate |].
  destruct (cell_is b 8 humanPlayer && cell_is b 0 "");
    [known_tests; discriminate |].
  known_tests.
  apply cell_is_false in H4.
  assert (Hcases : i ∈ [0; 2; 6; 8] \/ i ∈ [1; 3; 5; 7]).
  { assert (Hi4 : i <> 4) by congruence.
    assert (Hc : i = 0 \/ i = 1 \/ i = 2 \/ i = 3 \/ i = 5 \/ i = 6 \/ i = 7
                 \/ i = 8) by lia.
    destruct Hc as [-> | [-> | [-> | [-> | [-> | [-> | [-> | ->]]]]]]];
      [left | right | left | right | right | left | right | left];
      apply list_elem_of_In; simpl; tauto. }
  destruct (Z.eqb_spec (firstEmptyOf b [0; 2; 6; 8] (-1)) (-1)) as [Heq5 | Hne5];
    [| exact Hne5].
  destruct Hcases as [Hcorner | Hside].
  - pose proof (firstEmptyOf_finds b _ (-1) i Hcorner Hi) as H5.
    rewrite Heq5 in H5. discriminate H5.
  - pose proof (firstEmptyOf_finds b _ (-1) i Hside Hi) as H6.
    rewrite Heq5. intros Heq6. rewrite Heq6 in H6. discriminate H6.
Qed.

(** C8: on a board of nine cells with an empty cell, rules 1 to 6 leave
    [bestMove] different from -1, so the test that guards the random
    fallback fails: the move is the one of rules 1 to 6 whatever
    [Math.random] returns, and so is the whole effect of the computer's
    move. *)
Theorem strategic_rules_always_choose (b : list string) :
  length b = 9%nat ->
  (exists i, board_at b i = Some ""%string) ->
  strategicMove b <> -1
  /\ (forall (available : list Z) (rnd : Q),
        (strategicMove b =? -1) && (0 <? length available)%nat = false
        /\ chooseMove b available rnd = strategicMove b)
  /\ (forall rnd rnd' : Q,
        chooseMove b (availableCells b) rnd
        = chooseMove b (availableCells b) rnd')
  /\ (forall (g : Game) (rnd rnd' : Q),
        board g = b -> makeComputerMove g rnd = makeComputerMove g rnd').
Proof.
  intros Hlen Hempty. pose proof (strategicMove_found b Hlen Hempty) as Hfound.
  assert (Hchoose : forall available rnd,
             chooseMove b available rnd = strategicMove b).
  { intros available rnd. unfold chooseMove.
    destruct (Z.eqb_spec (strategicMove b) (-1)); [contradiction | reflexivity]. }
  split; [exact Hfound |]. split; [| split].
  - intros available rnd. split; [| apply Hchoose].
    destruct (Z.eqb_spec (strategicMove b) (-1)); [contradiction | reflexivity].
  - intros rnd rnd'. rewrite !Hchoose. reflexivity.
  - intros g rnd rnd' <-. unfold makeComputerMove. rewrite !Hchoose. reflexivity.
Qed.

Lemma strategic_rules_always_choose_witness :
  length topRowThreat = 9%nat
  /\ (exists i, board_at topRowThreat i = Some ""%string)
  /\ strategicMove topRowThreat <> -1.
Proof.
  assert (Hempty : exists i, board_at topRowThreat i = Some ""%string).
  { exists 2. reflexivity. }
  split; [reflexivity |]. split; [exact Hempty |].
  exact (proj1 (strategic_rules_always_choose topRowThreat eq_refl Hempty)).
Defined.

(** ** The chosen cell is empty *)

Lemma availableCells_elem (b : list string) (m : Z) :
  m ∈ availableCells b <-> board_at b m = Some ""%string.
Proof.
  unfold availableCells. rewrite list_elem_of_filter, elem_of_lookup_imap.
  split.
  - intros [Hne (n & cell & Hm & Hcell)].
    case_bool_decide as Hempty; [| congruence]. subst m cell.
    unfold board_at. destruct (Z.ltb_spec (Z.of_nat n) 0); [lia |].
    rewrite Nat2Z.id. exact Hcell.
  - intros Hm. pose proof (board_at_empty_in_range _ _ _ Hm) as Hr.
    split; [lia |]. exists (Z.to_nat m), ""%string.
    unfold board_at in Hm. destruct (Z.ltb_spec m 0); [lia |].
    split; [| exact Hm]. rewrite bool_decide_eq_true_2 by reflexivity. lia.
Qed.

Lemma randomCell_elem (available : list Z) (rnd : Q) :
  (0 <= rnd)%Q /\ (rnd < 1)%Q -> available <> [] ->
  randomCell available rnd ∈ available.
Proof.
  intros [Hlo Hhi] Hne. unfold randomCell.
  remember (Z.of_nat (length available)) as n eqn:Hlen.
  assert (Hn : 0 < n).
  { subst n. destruct available; [contradiction | simpl; lia]. }
  assert (HnQ : (0 < inject_Z n)%Q).
  { change 0%Q with (inject_Z 0). rewrite <- Zlt_Qlt. exact Hn. }
  assert (Hk0 : 0 <= Qfloor (rnd * inject_Z n)).
  { change 0 with (Qfloor (inject_Z 0)) at 1. apply Qfloor_resp_le.
    change (inject_Z 0) with 0%Q. apply Qmult_le_0_compat; [exact Hlo |].
    apply Qlt_le_weak, HnQ. }
  assert (Hk1 : Qfloor (rnd * inject_Z n) < n).
  { rewrite Zlt_Qlt.
    apply Qle_lt_trans with (y := (rnd * inject_Z n)%Q); [apply Qfloor_le |].
    rewrite <- (Qmult_1_l (inject_Z n)) at 2.
    apply Qmult_lt_compat_r; assumption. }
  destruct (lookup_lt_is_Some_2 available (Z.to_nat (Qfloor (rnd * inject_Z n))))
    as [x Hx]; [lia |].
  rewrite Hx. simpl. apply list_elem_of_lookup_2 in Hx. exact Hx.
Qed.

(** The fallback too only draws among the empty cells. *)
Lemma randomCell_empty (b : list string) (rnd : Q) :
  (0 <= rnd)%Q /\ (rnd < 1)%Q ->
  (exists i, board_at b i = Some ""%string) ->
  board_at b (randomCell (availableCells b) rnd) = Some ""%string.
Proof.
  intros Hrnd [i Hi]. apply availableCells_elem, randomCell_elem; [exact Hrnd |].
  apply availableCells_elem in Hi. intros Hnil. rewrite Hnil in Hi.
  apply elem_of_nil in Hi. contradiction.
Qed.

(** Whatever the length of the array: the whole chain of rules, fallback
    included, answers an empty cell as soon as there is one. *)
Lemma chooseMove_empty_any_length (b : list string) (rnd : Q) :
  (0 <= rnd)%Q /\ (rnd < 1)%Q ->
  (exists i, board_at b i = Some ""%string) ->
  board_at b (chooseMove b (availableCells b) rnd) = Some ""%string.
Proof.
  intros Hrnd Hempty. unfold chooseMove.
  destruct (strategicMove_empty b) as [Hnone | Hpicked].
  - rewrite Hnone. change (-1 =? -1) with true. cbn [andb].
    destruct Hempty as [i Hi]. pose proof Hi as Hin.
    apply availableCells_elem in Hin.
    destruct (availableCells b) as [| c cs] eqn:Hcells;
      [apply elem_of_nil in Hin; contradiction |].
    simpl Nat.ltb. cbv iota. rewrite <- Hcells.
    apply randomCell_empty; [exact Hrnd | exists i; exact Hi].
  - destruct (Z.eqb_spec (strategicMove b) (-1)) as [Heq | _];
      [| exact Hpicked].
    rewrite Heq in Hpicked. discriminate Hpicked.
Qed.

Lemma settle_board (mover : string) (continue_ : Game -> Game) (g : Game) :
  (forall g', board (continue_ g') = board g') ->
  board (settle mover continue_ g) = board g.
Proof.
  intros Hk. unfold settle.
  pose proof (checkForWin_board g) as Hw.
  destruct (checkForWin g) as [won g1]. simpl in Hw.
  destruct won; [exact Hw |].
  pose proof (checkForDraw_board g1) as Hd.
  destruct (checkForDraw g1) as [draw g2]. simpl in Hd.
  destruct draw; [simpl; congruence |].
  rewrite Hk. congruence.
Qed.

(** The board after the computer's move: at most the chosen cell differs. *)
Lemma makeComputerMove_board (g : Game) (rnd : Q) :
  board (makeComputerMove g rnd) = board g
  \/ (gameActive g = true
      /\ chooseMove (board g) (availableCells (board g)) rnd <> -1
      /\ board (makeComputerMove g rnd)
         = board_put (board g)
             (chooseMove (board g) (availableCells (board g)) rnd)
             computerPlayer).
Proof.
  unfold makeComputerMove.
  destruct (gameActive g) eqn:Hact; [| left; reflexivity]. simpl negb. cbv iota.
  destruct (length (availableCells (board g)) =? 0)%nat;
    [left; apply checkForDraw_board |].
  destruct (Z.eqb_spec (chooseMove (board g) (availableCells (board g)) rnd) (-1))
    as [Heq | Hne]; [left; reflexivity |].
  right. split; [reflexivity |]. split; [exact Hne |].
  rewrite settle_board; reflexivity.
Qed.

(** C10: on a board of nine cells with an empty cell, the cell that the
    policy chooses is empty; the random fallback, were it reached, draws
    among the empty cells only; and the computer's move writes O into the
    chosen cell and nowhere else, so that every mark already on the board
    stands after the move. *)
Theorem chosen_cell_is_empty (g : Game) (rnd : Q) :
  length (board g) = 9%nat ->
  (exists i, board_at (board g) i = Some ""%string) ->
  board_at (board g) (chooseMove (board g) (availableCells (board g)) rnd)
  = Some ""%string
  /\ (forall r : Q,
        (0 <= r)%Q /\ (r < 1)%Q ->
        board_at (board g) (randomCell (availableCells (board g)) r)
        = Some ""%string)
  /\ (gameActive g = true ->
      board (makeComputerMove g rnd)
      = board_put (board g)
          (chooseMove (board g) (availableCells (board g)) rnd) computerPlayer)
  /\ (forall j : Z,
        occupied (board g) j ->
        board_at (board (makeComputerMove g rnd)) j = board_at (board g) j).
Proof.
  intros Hlen Hempty.
  pose proof (strategicMove_found _ Hlen Hempty) as Hfound.
  assert (Hchoose : chooseMove (board g) (availableCells (board g)) rnd
                    = strategicMove (board g)).
  { unfold chooseMove.
    destruct (Z.eqb_spec (strategicMove (board g)) (-1));
      [contradiction | reflexivity]. }
  assert (Hcell : board_at (board g)
                    (chooseMove (board g) (availableCells (board g)) rnd)
                  = Some ""%string).
  { rewrite Hchoose. destruct (strategicMove_empty (board g)) as [Hnone | Hp];
      [contradiction | exact Hp]. }
  split; [exact Hcell |]. split; [| split].
  - intros r Hr. apply randomCell_empty; assumption.
  - intros Hact. unfold makeComputerMove. rewrite Hact. simpl negb. cbv iota.
    destruct Hempty as [i Hi]. apply availableCells_elem in Hi.
    destruct (availableCells (board g)) as [| c cs] eqn:Hcells;
      [apply elem_of_nil in Hi; contradiction |].
    simpl length. simpl Nat.eqb. cbv iota.
    rewrite Hchoose in *.
    destruct (Z.eqb_spec (strategicMove (board g)) (-1));
      [contradiction |].
    rewrite settle_board; reflexivity.
  - intros j (x & Hx & Hne).
    destruct (makeComputerMove_board g rnd) as [-> | (_ & _ & ->)];
      [reflexivity |].
    pose proof (board_at_empty_in_range _ _ _ Hcell) as Hr.
    apply board_at_put_other; [lia |]. intros <-. congruence.
Qed.

Lemma chosen_cell_is_empty_witness :
  length (board computerToMove) = 9%nat
  /\ (exists i, board_at (board computerToMove) i = Some ""%string)
  /\ board_at (board computerToMove)
       (chooseMove (board computerToMove)
          (availableCells (board computerToMove)) 0%Q)
     = Some ""%string.
Proof.
  assert (Hempty : exists i, board_at (board computerToMove) i = Some ""%string).
  { exists 1. reflexivity. }
  split; [reflexivity |]. split; [exact Hempty |].
  exact (proj1 (chosen_cell_is_empty computerToMove 0%Q eq_refl Hempty)).
Defined.

(** ** Turn alternation when no deferred move is left over *)

Lemma marks_insert (b : list string) (n : nat) (v : string) :
  b !! n = Some ""%string -> v <> ""%string ->
  marks (<[n := v]> b) = S (marks b).
Proof.
  unfold marks. revert n. induction b as [| c rest IH]; intros n Hn Hv.
  - discriminate.
  - destruct n as [| n]; simpl in *.
    + injection Hn as ->. rewrite !filter_cons.
      destruct (decide (v <> ""%string)); [| contradiction].
      destruct (decide (""%string <> ""%string)); [congruence | reflexivity].
    + rewrite !filter_cons. destruct (decide (c <> ""%string)); simpl;
        rewrite (IH n Hn Hv); reflexivity.
Qed.

Lemma marks_put (b : list string) (i : Z) (v : string) :
  board_at b i = Some ""%string -> v <> ""%string ->
  marks (board_put b i v) = S (marks b).
Proof.
  unfold board_at, board_put. destruct (i <? 0); [discriminate |].
  apply marks_insert.
Qed.

Lemma playerOfMove_not_empty (n : nat) : playerOfMove n <> ""%string.
Proof. unfold playerOfMove. destruct (Nat.even n); discriminate. Qed.

Lemma playerOfMove_next (n : nat) :
  playerOfMove (S n)
  = if bool_decide (playerOfMove n = "X"%string) then "O"%string
    else "X"%string.
Proof.
  unfold playerOfMove. rewrite Nat.even_succ, <- Nat.negb_even.
  destruct (Nat.even n); reflexivity.
Qed.

(** How a move ends: either the game is over and nothing but the banner,
    the flag and the highlights has changed, or the continuation runs on
    the very state that was given. *)
Lemma settle_cases (mover : string) (continue_ : Game -> Game) (g : Game) :
  (gameActive (settle mover continue_ g) = false
   /\ board (settle mover continue_ g) = board g
   /\ currentPlayer (settle mover continue_ g) = currentPlayer g
   /\ gameMode (settle mover continue_ g) = gameMode g
   /\ pendingTimers (settle mover continue_ g) = pendingTimers g)
  \/ settle mover continue_ g = continue_ g.
Proof.
  unfold settle, checkForDraw, checkForWin.
  destruct (firstWinningLine (board g) winningCombinations) as [[[i j] k] |]
    eqn:Hfirst.
  - left. repeat split; reflexivity.
  - rewrite Hfirst. simpl. destruct (boardFull (board g)).
    + left. repeat split; reflexivity.
    + right. reflexivity.
Qed.

Lemma chooseMove_picks_empty (b : list string) (rnd : Q) :
  pickedEmpty b (chooseMove b (availableCells b) rnd).
Proof.
  unfold chooseMove.
  destruct ((strategicMove b =? -1) && (0 <? length (availableCells b))%nat);
    [| apply strategicMove_empty].
  unfold randomCell.
  destruct (availableCells b !! _) as [m |] eqn:Hm; simpl.
  - right. apply availableCells_elem. eapply list_elem_of_lookup_2, Hm.
  - left. reflexivity.
Qed.

Lemma turnInvariant_start (g : Game) (mode : string) :
  pendingTimers g = 0%nat -> turnInvariant (showGameScreen g mode).
Proof.
  intros Hp. split; simpl; [reflexivity | left; exact Hp].
Qed.

Lemma turnInvariant_click (g : Game) (i : Z) :
  turnInvariant g -> turnInvariant (handleCellClick g i).
Proof.
  intros Hinv.
  destruct (cell_is (board g) i "") eqn:Hcell;
    [| rewrite handleCellClick_guard;
       [exact Hinv | left; apply cell_is_false, Hcell]].
  destruct (gameActive g) eqn:Hact;
    [| rewrite handleCellClick_guard; [exact Hinv | right; left; exact Hact]].
  destruct (bool_decide (gameMode g = "human-computer"%string)
            && bool_decide (currentPlayer g = "O"%string)) eqn:Hcomp.
  { rewrite handleCellClick_guard; [exact Hinv | right; right].
    apply andb_true_iff in Hcomp as [Hm Hp].
    apply bool_decide_eq_true in Hm, Hp. split; assumption. }
  destruct Hinv as [Hturn Htimer]. specialize (Hturn Hact).
  unfold handleCellClick. rewrite Hcell, Hact, Hcomp.
  simpl negb. cbn [orb]. cbv iota.
  assert (Hnone : pendingTimers g = 0%nat).
  { destruct Htimer as [H0 | (_ & Hm & Hp)]; [exact H0 |].
    rewrite (bool_decide_eq_true_2 _ Hm), (bool_decide_eq_true_2 _ Hp) in Hcomp.
    discriminate Hcomp. }
  apply cell_is_true in Hcell.
  match goal with
  | |- turnInvariant (settle ?mover ?k ?g1) =>
      destruct (settle_cases mover k g1) as [(Ha & _ & _ & _ & Hp) | ->]
  end.
  - split; [rewrite Ha; discriminate |]. left. rewrite Hp. exact Hnone.
  - simpl.
    assert (Hnext :
              (if bool_decide (currentPlayer g = "X"%string) then "O"%string
               else "X"%string)
              = playerOfMove (marks (board_put (board g) i (currentPlayer g)))).
    { rewrite marks_put; [| exact Hcell |].
      - rewrite playerOfMove_next, <- Hturn. reflexivity.
      - rewrite Hturn. apply playerOfMove_not_empty. }
    rewrite Hact, andb_true_r.
    destruct (bool_decide (gameMode g = "human-computer"%string)
              && bool_decide
                   ((if bool_decide (currentPlayer g = "X"%string)
                     then "O"%string else "X"%string) = "O"%string))
      eqn:Hsched.
    + split; simpl; [intros _; exact Hnext |]. right.
      apply andb_true_iff in Hsched as [Hm Hp].
      apply bool_decide_eq_true in Hm, Hp.
      rewrite Hnone. repeat split; assumption.
    + split; simpl; [intros _; exact Hnext | left; exact Hnone].
Qed.

Lemma turnInvariant_timer (g : Game) (rnd : Q) :
  turnInvariant g -> turnInvariant (step g (TimerFires rnd)).
Proof.
  intros Hinv. simpl.
  destruct (pendingTimers g) as [| n] eqn:Hp; [exact Hinv |].
  destruct Hinv as [Hturn Htimer].
  destruct Htimer as [H0 | (H1 & Hmode & Hplayer)]; [congruence |].
  assert (Hn : n = 0%nat) by congruence. subst n.
  unfold makeComputerMove. simpl gameActive.
  destruct (gameActive g) eqn:Hact; simpl negb; cbv iota.
  2:{ split; simpl; [rewrite Hact; discriminate | left; reflexivity]. }
  specialize (Hturn eq_refl). simpl board.
  destruct (length (availableCells (board g)) =? 0)%nat.
  { unfold checkForDraw, checkForWin. simpl board.
    destruct (firstWinningLine (board g) winningCombinations)
      as [[[i j] k] |]; simpl; (split; simpl; [intros _; exact Hturn | left]);
      reflexivity. }
  destruct (chooseMove_picks_empty (board g) rnd) as [Hm | Hm].
  { rewrite Hm. change (-1 =? -1) with true. cbv iota.
    split; simpl; [intros _; exact Hturn | left; reflexivity]. }
  destruct (Z.eqb_spec (chooseMove (board g) (availableCells (board g)) rnd) (-1))
    as [Heq | Hne]; [rewrite Heq in Hm; discriminate Hm |].
  match goal with
  | |- turnInvariant (settle ?mover ?k ?g1) =>
      destruct (settle_cases mover k g1) as [(Ha & _ & _ & _ & Hp') | ->]
  end.
  - split; [rewrite Ha; discriminate | left; rewrite Hp'; reflexivity].
  - split; simpl; [intros _ | left; reflexivity].
    rewrite marks_put; [| exact Hm | discriminate].
    rewrite playerOfMove_next, <- Hturn, Hplayer. reflexivity.
Qed.

Lemma turnInvariant_run (g : Game) (es : list Event) :
  forallb gameEvent es = true -> turnInvariant g -> turnInvariant (run g es).
Proof.
  unfold run. revert g. induction es as [| e es IH]; intros g Hes Hinv;
    [exact Hinv |].
  simpl in Hes. apply andb_true_iff in Hes as [He Hes]. simpl.
  apply IH; [exact Hes |].
  destruct e as [i | mode | | rnd]; try discriminate He.
  - apply turnInvariant_click, Hinv.
  - apply turnInvariant_timer, Hinv.
Qed.

(** X13: in every game that starts with no deferred move left over from a
    game before it, after any clicks and timers, X is the current player
    when the number of marks is even and O when it is odd, as long as the
    game is active. *)
Lemma currentPlayer_alternates_without_stale_timer
    (g : Game) (mode : string) (es : list Event) :
  pendingTimers g = 0%nat ->
  forallb gameEvent es = true ->
  gameActive (run (showGameScreen g mode) es) = true ->
  currentPlayer (run (showGameScreen g mode) es)
  = playerOfMove (marks (board (run (showGameScreen g mode) es))).
Proof.
  intros Hp Hes. apply inv_turn, turnInvariant_run; [exact Hes |].
  apply turnInvariant_start, Hp.
Qed.

(** X14: a game that is over stays as it is under clicks and timers: the
    board, the current player, the flag and the banner do not change, so
    that only a reset starts play again. *)
Lemma finished_game_is_frozen (g : Game) (e : Event) :
  gameEvent e = true -> gameActive g = false ->
  board (step g e) = board g
  /\ currentPlayer (step g e) = currentPlayer g
  /\ gameActive (step g e) = false
  /\ statusText (step g e) = statusText g.
Proof.
  intros He Hact. destruct e as [i | mode | | rnd]; try discriminate He; simpl.
  - rewrite handleCellClick_guard by (right; left; exact Hact).
    repeat split; assumption.
  - destruct (pendingTimers g); [repeat split; assumption |].
    unfold makeComputerMove. simpl gameActive. rewrite Hact. simpl.
    repeat split; assumption.
Qed.

(** X15: the click or the computer's move that ends a game leaves
    [currentPlayer] at the value it had before that move. *)
Lemma terminal_move_keeps_currentPlayer (g : Game) (e : Event) :
  gameEvent e = true -> gameActive g = true -> gameActive (step g e) = false ->
  currentPlayer (step g e) = currentPlayer g.
Proof.
  intros He Hact Hend. destruct e as [i | mode | | rnd]; try discriminate He;
    simpl in *.
  - revert Hend. unfold handleCellClick.
    destruct (negb (cell_is (board g) i "") || negb (gameActive g)
              || bool_decide (gameMode g = "human-computer"%string)
                 && bool_decide (currentPlayer g = "O"%string));
      [congruence |].
    match goal with
    | |- context [settle ?mover ?k ?g1] =>
        destruct (settle_cases mover k g1) as [(_ & _ & Hc & _) | ->]
    end; [intros _; exact Hc |].
    simpl. rewrite Hact.
    destruct (_ && _); simpl; congruence.
  - revert Hend. destruct (pendingTimers g) as [| n]; [congruence |].
    unfold makeComputerMove. simpl gameActive. rewrite Hact. simpl negb.
    cbv iota. simpl board.
    destruct (length (availableCells (board g)) =? 0)%nat.
    { unfold checkForDraw, checkForWin. simpl board.
      destruct (firstWinningLine (board g) winningCombinations)
        as [[[i j] k] |]; simpl; congruence. }
    destruct (chooseMove (board g) (availableCells (board g)) rnd =? -1);
      [simpl; congruence |].
    match goal with
    | |- context [settle ?mover ?k ?g1] =>
        destruct (settle_cases mover k g1) as [(_ & _ & Hc & _) | ->]
    end; [intros _; exact Hc |].
    simpl. congruence.
Qed.

(** ** The states that the page reaches *)

Lemma settle_unfold (mover : string) (continue_ : Game -> Game) (g : Game) :
  settle mover continue_ g
  = match firstWinningLine (board g) winningCombinations with
    | Some (i, j, k) =>
        with_gameActive false
          (updateStatus (winMessage mover)
             (with_winHighlight
                (addHighlight k
                   (addHighlight j (addHighlight i (winHighlight g)))) g))
    | None =>
        if boardFull (board g)
        then with_gameActive false (updateStatus drawMessage g)
        else continue_ g
    end.
Proof.
  unfold settle, checkForDraw, checkForWin.
  destruct (firstWinningLine (board g) winningCombinations) as [[[i j] k] |]
    eqn:Hfirst; [reflexivity |].
  rewrite Hfirst. simpl. destruct (boardFull (board g)); reflexivity.
Qed.

Lemma highlight_of_line (l : Line) :
  l ∈ winningCombinations ->
  let '(i, j, k) := l in
  addHighlight k (addHighlight j (addHighlight i [])) = [i; j; k].
Proof.
  unfold winningCombinations. intros Hin.
  repeat (apply elem_of_cons in Hin as [-> | Hin]; [reflexivity |]).
  apply elem_of_nil in Hin. contradiction.
Qed.

Lemma firstWinningLine_elem (b : list string) (ls : list Line) (l : Line) :
  firstWinningLine b ls = Some l -> l ∈ ls /\ lineWins b l = true.
Proof.
  intros Hfirst.
  apply firstWinningLine_Some in Hfirst as (earlier & later & -> & Hl & _).
  split; [| exact Hl]. apply elem_of_app. right. left.
Qed.

Lemma lineWins_put_other (b : list string) (m : Z) (v : string) (i j k : Z) :
  0 <= m -> m <> i -> m <> j -> m <> k ->
  lineWins (board_put b m v) (i, j, k) = lineWins b (i, j, k).
Proof.
  intros Hm Hi Hj Hk. unfold lineWins.
  rewrite !board_at_put_other by assumption. reflexivity.
Qed.

Lemma lineWins_same (b : list string) (i j k : Z) :
  lineWins b (i, j, k) = true ->
  board_at b j = board_at b i /\ board_at b k = board_at b i.
Proof.
  unfold lineWins.
  destruct (js_eq (board_at b i) (Some "") || js_eq (board_at b j) (Some "")
            || js_eq (board_at b k) (Some "")); [discriminate |].
  intros Hsame. apply andb_true_iff in Hsame as [Hij Hjk].
  apply js_eq_true in Hij, Hjk. split; congruence.
Qed.

(** On a board without a completed combination, a combination that the
    new mark completes goes through the cell of that mark and is held by
    it. *)
Lemma new_line_is_movers (b : list string) (m : Z) (v : string) (l : Line) :
  firstWinningLine b winningCombinations = None ->
  board_at b m = Some ""%string ->
  l ∈ winningCombinations ->
  lineWins (board_put b m v) l = true ->
  heldBy (board_put b m v) v l.
Proof.
  intros Hnone Hm Hin Hwins. destruct l as [[i j] k].
  pose proof (board_at_empty_in_range _ _ _ Hm) as Hr.
  pose proof (proj1 (firstWinningLine_None b _) Hnone _ Hin) as Hold.
  destruct (lineWins_same _ _ _ _ Hwins) as [Hji Hki].
  pose proof (board_at_put_same b m ""%string v Hm) as Hnew.
  assert (Hthrough : m = i \/ m = j \/ m = k).
  { destruct (Z.eq_dec m i) as [| Hi]; [tauto |].
    destruct (Z.eq_dec m j) as [| Hj]; [tauto |].
    destruct (Z.eq_dec m k) as [| Hk]; [tauto |].
    rewrite lineWins_put_other in Hwins by lia. congruence. }
  unfold heldBy.
  destruct Hthrough as [-> | [-> | ->]]; repeat split; congruence.
Qed.

Lemma boardFull_false (b : list string) :
  boardFull b = false -> exists i, board_at b i = Some ""%string.
Proof.
  unfold boardFull. induction b as [| c rest IH]; simpl; [discriminate |].
  intros Hfull. apply andb_false_iff in Hfull as [Hc | Hrest].
  - apply negb_false_iff, bool_decide_eq_true in Hc. subst c.
    exists 0. reflexivity.
  - destruct (IH Hrest) as [i Hi].
    pose proof (board_at_empty_in_range _ _ _ Hi) as Hr.
    exists (i + 1). unfold board_at in *.
    destruct (Z.ltb_spec i 0); [lia |].
    destruct (Z.ltb_spec (i + 1) 0); [lia |].
    replace (Z.to_nat (i + 1)) with (S (Z.to_nat i)) by lia. exact Hi.
Qed.

Lemma cellValue_put (b : list string) (m : Z) (v : string) :
  Forall cellValue b -> cellValue v -> Forall cellValue (board_put b m v).
Proof.
  intros Hb Hv. unfold board_put. destruct (m <? 0); [exact Hb |].
  apply Forall_insert; assumption.
Qed.

Lemma isMark_cellValue (p : string) : isMark p -> cellValue p.
Proof. unfold isMark, cellValue. tauto. Qed.

Lemma wellFormed_initializeGame (g : Game) : wellFormed (initializeGame g).
Proof.
  split; simpl.
  - reflexivity.
  - repeat constructor.
  - left. reflexivity.
  - intros _. repeat split; reflexivity.
  - discriminate.
Qed.

(** A mark of [mover] on an empty cell of an active game, followed by the
    win check, the draw check and a continuation that only touches the
    current player, the banner and the timers. *)
Lemma wellFormed_move
    (g : Game) (m : Z) (mover : string) (continue_ : Game -> Game) :
  wellFormed g -> gameActive g = true ->
  board_at (board g) m = Some ""%string -> isMark mover ->
  (forall g', board (continue_ g') = board g'
              /\ gameActive (continue_ g') = gameActive g'
              /\ winHighlight (continue_ g') = winHighlight g'
              /\ isMark (currentPlayer (continue_ g'))) ->
  wellFormed
    (settle mover continue_ (with_board (board_put (board g) m mover) g)).
Proof.
  intros [Hlen Hcells Hplayer Hactive _] Hact Hm Hmover Hk.
  destruct (Hactive Hact) as (Hnone & _ & Hhl).
  rewrite settle_unfold. simpl board. simpl winHighlight.
  assert (Hlen' : length (board_put (board g) m mover) = 9%nat).
  { rewrite length_board_put. exact Hlen. }
  assert (Hcells' : Forall cellValue (board_put (board g) m mover)).
  { apply cellValue_put; [exact Hcells | apply isMark_cellValue, Hmover]. }
  destruct (firstWinningLine (board_put (board g) m mover) winningCombinations)
    as [[[i j] k] |] eqn:Hfirst.
  - destruct (firstWinningLine_elem _ _ _ Hfirst) as [Hin Hwins].
    split; simpl; try assumption; [discriminate |].
    intros _. left. exists mover, (i, j, k).
    split; [exact Hmover |]. split; [reflexivity |].
    split; [exact Hfirst |]. split.
    + apply new_line_is_movers; assumption.
    + rewrite Hhl. exact (highlight_of_line _ Hin).
  - destruct (boardFull (board_put (board g) m mover)) eqn:Hfull.
    + split; simpl; try assumption; [discriminate |].
      intros _. right. repeat split; assumption.
    + destruct (Hk (with_board (board_put (board g) m mover) g))
        as (Hb & Ha & Hh & Hp).
      simpl in Hb, Ha, Hh.
      split; rewrite ?Hb, ?Ha, ?Hh; try assumption.
      * intros _. repeat split; assumption.
      * rewrite Hact. discriminate.
Qed.

Lemma wellFormed_click (g : Game) (i : Z) :
  wellFormed g -> wellFormed (handleCellClick g i).
Proof.
  intros Hwf.
  destruct (cell_is (board g) i "") eqn:Hcell;
    [| rewrite handleCellClick_guard;
       [exact Hwf | left; apply cell_is_false, Hcell]].
  destruct (gameActive g) eqn:Hact;
    [| rewrite handleCellClick_guard; [exact Hwf | right; left; exact Hact]].
  unfold handleCellClick. rewrite Hcell, Hact. simpl negb. cbn [orb].
  destruct (bool_decide (gameMode g = "human-computer"%string)
            && bool_decide (currentPlayer g = "O"%string)); [exact Hwf |].
  apply wellFormed_move; try assumption.
  - apply cell_is_true, Hcell.
  - apply (wf_player _ Hwf).
  - intros g'.
    assert (Hflip : isMark (if bool_decide (currentPlayer g' = "X"%string)
                            then "O"%string else "X"%string)).
    { destruct (bool_decide _); [right | left]; reflexivity. }
    destruct (_ && _ && _); simpl; repeat split; exact Hflip.
Qed.

Lemma wellFormed_computer (g : Game) (rnd : Q) :
  wellFormed g -> wellFormed (makeComputerMove g rnd).
Proof.
  intros Hwf. unfold makeComputerMove.
  destruct (gameActive g) eqn:Hact; [| exact Hwf]. simpl negb. cbv iota.
  destruct (wf_active _ Hwf Hact) as (Hnone & Hfull & Hhl).
  destruct (length (availableCells (board g)) =? 0)%nat.
  { unfold checkForDraw, checkForWin. rewrite Hnone. exact Hwf. }
  destruct (Z.eqb_spec (chooseMove (board g) (availableCells (board g)) rnd) (-1))
    as [Heq | Hne]; [exact Hwf |].
  apply wellFormed_move; try assumption.
  - destruct (chooseMove_picks_empty (board g) rnd) as [Hnot | Hempty];
      [contradiction | exact Hempty].
  - right. reflexivity.
  - intros g'. simpl. repeat split. left. reflexivity.
Qed.

Lemma wellFormed_pendingTimers (g : Game) (n : nat) :
  wellFormed g -> wellFormed (with_pendingTimers n g).
Proof. intros [H1 H2 H3 H4 H5]. split; assumption. Qed.

Lemma wellFormed_step (g : Game) (e : Event) :
  wellFormed g -> wellFormed (step g e).
Proof.
  intros Hwf. destruct e as [i | mode | | rnd]; simpl.
  - apply wellFormed_click, Hwf.
  - apply wellFormed_initializeGame.
  - apply wellFormed_initializeGame.
  - destruct (pendingTimers g); [exact Hwf |].
    apply wellFormed_computer, wellFormed_pendingTimers, Hwf.
Qed.

Lemma wellFormed_run (g : Game) (es : list Event) :
  wellFormed g -> wellFormed (run g es).
Proof.
  unfold run. revert g. induction es as [| e es IH]; intros g Hwf;
    [exact Hwf |].
  simpl. apply IH, wellFormed_step, Hwf.
Qed.

(** X1: from the first call of [initializeGame] on, whatever is clicked,
    started, reset or fired, the board keeps its nine cells, every cell is
    empty or holds X or O, and the current player is X or O. *)
Theorem reachable_board_shape (g : Game) (es : list Event) :
  length (board (run (initializeGame g) es)) = 9%nat
  /\ Forall cellValue (board (run (initializeGame g) es))
  /\ isMark (currentPlayer (run (initializeGame g) es)).
Proof.
  pose proof (wellFormed_run _ es (wellFormed_initializeGame g)) as Hwf.
  split; [apply (wf_length _ Hwf) |].
  split; [apply (wf_cells _ Hwf) | apply (wf_player _ Hwf)].
Qed.

(** X2: in every state that the page reaches, the game is active exactly
    when no combination carries three identical marks and a cell is still
    empty. *)
Theorem game_active_iff_open (g : Game) (es : list Event) :
  gameActive (run (initializeGame g) es) = true <->
  (forall l, l ∈ winningCombinations ->
             ~ aligned (board (run (initializeGame g) es)) l)
  /\ (exists i, board_at (board (run (initializeGame g) es)) i
                = Some ""%string).
Proof.
  pose proof (wellFormed_run _ es (wellFormed_initializeGame g)) as Hwf.
  set (s := run (initializeGame g) es) in *.
  pose proof (wf_length _ Hwf) as Hlen. split.
  - intros Hact. destruct (wf_active _ Hwf Hact) as (Hnone & Hfull & _).
    split; [apply firstWinningLine_None_aligned; assumption |].
    apply boardFull_false, Hfull.
  - intros [Hnoline [i Hi]].
    destruct (gameActive s) eqn:Hact; [reflexivity | exfalso].
    destruct (wf_over _ Hwf Hact)
      as [(p & l & _ & _ & Hfirst & _) | (_ & _ & Hfull & _)].
    + destruct (firstWinningLine_Some_aligned _ _ Hlen Hfirst) as [Hin Hal].
      exact (Hnoline l Hin Hal).
    + pose proof (board_at_empty_in_range _ _ _ Hi) as Hr.
      destruct (proj1 (boardFull_true _) Hfull i Hr) as (x & Hx & Hne).
      congruence.
Qed.

(** X3: in every state that the page reaches with the game over, either
    the banner names a player who holds the three cells of a combination,
    or the banner announces a draw, no combination carries three
    identical marks and all nine cells are taken. *)
Theorem finished_game_banner (g : Game) (es : list Event) :
  gameActive (run (initializeGame g) es) = false ->
  (exists (p : string) (l : Line),
      isMark p
      /\ statusText (run (initializeGame g) es) = winMessage p
      /\ l ∈ winningCombinations
      /\ heldBy (board (run (initializeGame g) es)) p l)
  \/ (statusText (run (initializeGame g) es) = drawMessage
      /\ (forall l, l ∈ winningCombinations ->
                    ~ aligned (board (run (initializeGame g) es)) l)
      /\ (forall i, 0 <= i < 9 ->
                    occupied (board (run (initializeGame g) es)) i)).
Proof.
  pose proof (wellFormed_run _ es (wellFormed_initializeGame g)) as Hwf.
  set (s := run (initializeGame g) es) in *.
  pose proof (wf_length _ Hwf) as Hlen. intros Hact.
  destruct (wf_over _ Hwf Hact)
    as [(p & l & Hp & Hs & Hfirst & Hheld & _) | (Hs & Hnone & Hfull & _)].
  - left. exists p, l. split; [exact Hp |]. split; [exact Hs |].
    split; [apply (firstWinningLine_elem _ _ _ Hfirst) | exact Hheld].
  - right. split; [exact Hs |].
    split; [apply firstWinningLine_None_aligned; assumption |].
    intros i Hi. apply (proj1 (boardFull_true _) Hfull). rewrite Hlen. lia.
Qed.

Lemma finished_game_banner_witness :
  gameActive (run (initializeGame scriptLoaded) topRowGame) = false
  /\ ((exists (p : string) (l : Line),
          isMark p
          /\ statusText (run (initializeGame scriptLoaded) topRowGame)
             = winMessage p
          /\ l ∈ winningCombinations
          /\ heldBy (board (run (initializeGame scriptLoaded) topRowGame)) p l)
      \/ (statusText (run (initializeGame scriptLoaded) topRowGame)
          = drawMessage
          /\ (forall l, l ∈ winningCombinations ->
                ~ aligned (board (run (initializeGame scriptLoaded) topRowGame))
                    l)
          /\ (forall i, 0 <= i < 9 ->
                occupied (board (run (initializeGame scriptLoaded) topRowGame))
                  i))).
Proof.
  split; [reflexivity |].
  apply (finished_game_banner scriptLoaded topRowGame). reflexivity.
Defined.

(** X4: in every state that the page reaches, the highlighted cells are
    the three cells of the first completed combination of the table, and
    no cell is highlighted when there is none. *)
Theorem highlight_is_first_line (g : Game) (es : list Event) :
  winHighlight (run (initializeGame g) es)
  = highlightOf
      (firstWinningLine (board (run (initializeGame g) es))
         winningCombinations).
Proof.
  pose proof (wellFormed_run _ es (wellFormed_initializeGame g)) as Hwf.
  set (s := run (initializeGame g) es) in *.
  destruct (gameActive s) eqn:Hact.
  - destruct (wf_active _ Hwf Hact) as (Hnone & _ & Hhl).
    rewrite Hnone, Hhl. reflexivity.
  - destruct (wf_over _ Hwf Hact)
      as [(p & l & _ & _ & Hfirst & _ & Hhl) | (_ & Hnone & _ & Hhl)].
    + rewrite Hfirst. exact Hhl.
    + rewrite Hnone, Hhl. reflexivity.
Qed.

Lemma chooseMove_found (b : list string) (available : list Z) (rnd : Q) :
  length b = 9%nat -> (exists i, board_at b i = Some ""%string) ->
  chooseMove b available rnd <> -1
  /\ board_at b (chooseMove b available rnd) = Some ""%string.
Proof.
  intros Hlen Hempty. pose proof (strategicMove_found b Hlen Hempty) as Hfound.
  unfold chooseMove.
  destruct (Z.eqb_spec (strategicMove b) (-1)) as [? | _]; [contradiction |].
  split; [exact Hfound |].
  destruct (strategicMove_empty b) as [? | Hcell]; [contradiction | exact Hcell].
Qed.

Lemma availableCells_not_empty (b : list string) :
  (exists i, board_at b i = Some ""%string) ->
  (length (availableCells b) =? 0)%nat = false.
Proof.
  intros [i Hi]. apply availableCells_elem in Hi.
  destruct (availableCells b); [apply elem_of_nil in Hi; contradiction |].
  reflexivity.
Qed.

(** The computer's move on an active game in a state that the page
    reaches. *)
Lemma makeComputerMove_active (g : Game) (rnd : Q) :
  wellFormed g -> gameActive g = true ->
  let m := chooseMove (board g) (availableCells (board g)) rnd in
  board_at (board g) m = Some ""%string
  /\ makeComputerMove g rnd
     = settle computerPlayer
         (fun g =>
            let g := with_currentPlayer humanPlayer g in
            updateStatus (turnMessage (currentPlayer g)) g)
         (with_board (board_put (board g) m computerPlayer) g).
Proof.
  intros Hwf Hact m.
  destruct (wf_active _ Hwf Hact) as (_ & Hfull & _).
  pose proof (boardFull_false _ Hfull) as Hempty.
  destruct (chooseMove_found (board g) (availableCells (board g)) rnd
              (wf_length _ Hwf) Hempty) as [Hne Hcell].
  split; [exact Hcell |].
  unfold makeComputerMove. rewrite Hact. simpl negb. cbv iota.
  rewrite (availableCells_not_empty _ Hempty).
  fold m in Hne |- *.
  destruct (Z.eqb_spec m (-1)); [contradiction | reflexivity].
Qed.

(** X5: in every state that the page reaches with the game active, a call
    of [makeComputerMove] places exactly one O, on a cell that was empty:
    neither the early return for an empty [availableCells] nor the case
    that no move is found occurs. *)
Theorem computer_always_moves (g : Game) (es : list Event) (rnd : Q) :
  gameActive (run (initializeGame g) es) = true ->
  exists m : Z,
    board_at (board (run (initializeGame g) es)) m = Some ""%string
    /\ board (makeComputerMove (run (initializeGame g) es) rnd)
       = board_put (board (run (initializeGame g) es)) m "O"
    /\ marks (board (makeComputerMove (run (initializeGame g) es) rnd))
       = S (marks (board (run (initializeGame g) es))).
Proof.
  pose proof (wellFormed_run _ es (wellFormed_initializeGame g)) as Hwf.
  set (s := run (initializeGame g) es) in *. intros Hact.
  destruct (makeComputerMove_active s rnd Hwf Hact) as [Hcell Hmove].
  exists (chooseMove (board s) (availableCells (board s)) rnd).
  split; [exact Hcell |].
  assert (Hboard : board (makeComputerMove s rnd)
                   = board_put (board s)
                       (chooseMove (board s) (availableCells (board s)) rnd)
                       "O").
  { rewrite Hmove, settle_board; reflexivity. }
  split; [exact Hboard |].
  rewrite Hboard. apply marks_put; [exact Hcell | discriminate].
Qed.

Lemma computer_always_moves_witness :
  gameActive (run (initializeGame scriptLoaded) centreOpening) = true
  /\ exists m : Z,
      board_at (board (run (initializeGame scriptLoaded) centreOpening)) m
      = Some ""%string
      /\ board (makeComputerMove
                  (run (initializeGame scriptLoaded) centreOpening) 0%Q)
         = board_put (board (run (initializeGame scriptLoaded) centreOpening))
             m "O"
      /\ marks (board (makeComputerMove
                         (run (initializeGame scriptLoaded) centreOpening) 0%Q))
         = S (marks (board (run (initializeGame scriptLoaded) centreOpening))).
Proof.
  split; [reflexivity |].
  apply (computer_always_moves scriptLoaded centreOpening 0%Q). reflexivity.
Defined.

(** ** A game against the computer *)

Lemma computerGame_start (g : Game) :
  pendingTimers g = 0%nat -> computerGame (showGameScreen g "human-computer").
Proof.
  intros Hp. split.
  - apply wellFormed_initializeGame.
  - reflexivity.
  - right. split; [right; reflexivity | exact Hp].
Qed.

Lemma computerGame_click (g : Game) (i : Z) :
  computerGame g -> computerGame (handleCellClick g i).
Proof.
  intros Hcg. pose proof Hcg as [Hwf Hmode Hpending].
  pose proof (wellFormed_click g i Hwf) as Hwf'.
  destruct (cell_is (board g) i "") eqn:Hcell;
    [| rewrite handleCellClick_guard;
       [exact Hcg | left; apply cell_is_false, Hcell]].
  destruct (gameActive g) eqn:Hact;
    [| rewrite handleCellClick_guard; [exact Hcg | right; left; exact Hact]].
  destruct (wf_player _ Hwf) as [HX | HO];
    [| rewrite handleCellClick_guard; [exact Hcg | right; right; tauto]].
  assert (Hnone : pendingTimers g = 0%nat).
  { destruct Hpending as [(_ & HO & _) | [_ H0]]; [congruence | exact H0]. }
  split; [exact Hwf' | |]; clear Hwf'; unfold handleCellClick;
    rewrite Hcell, Hact, Hmode, HX; simpl negb; cbn [orb];
    rewrite settle_unfold; simpl board;
    destruct (firstWinningLine (board_put (board g) i "X") winningCombinations)
      as [[[a b] c] |];
    try destruct (boardFull (board_put (board g) i "X"));
    simpl; rewrite ?Hact, ?Hmode, ?HX; simpl;
    first
      [ exact Hmode
      | reflexivity
      | right; split; [left; reflexivity | exact Hnone]
      | left; rewrite Hnone; repeat split; first [reflexivity | exact Hact] ].
Qed.

Lemma computerGame_timer (g : Game) (rnd : Q) :
  computerGame g -> computerGame (step g (TimerFires rnd)).
Proof.
  intros Hcg. pose proof Hcg as [Hwf Hmode Hpending]. simpl.
  destruct Hpending as [(Hact & HO & H1) | [_ H0]];
    [rewrite H1 | rewrite H0; exact Hcg].
  pose proof (wellFormed_pendingTimers g 0 Hwf) as Hwf0.
  destruct (makeComputerMove_active _ rnd Hwf0 Hact) as [_ Hmove].
  split; [apply wellFormed_computer, Hwf0 | |]; rewrite Hmove;
    rewrite settle_unfold; simpl board;
    destruct (firstWinningLine _ winningCombinations) as [[[a b] c] |];
    try destruct (boardFull _); simpl;
    first
      [ exact Hmode
      | right; split; [left |]; reflexivity
      | right; split; [right |]; reflexivity ].
Qed.

Lemma computerGame_run (g : Game) (es : list Event) :
  forallb gameEvent es = true -> computerGame g -> computerGame (run g es).
Proof.
  unfold run. revert g. induction es as [| e es IH]; intros g Hes Hcg;
    [exact Hcg |].
  simpl in Hes. apply andb_true_iff in Hes as [He Hes]. simpl.
  apply IH; [exact Hes |].
  destruct e as [i | mode | | rnd]; try discriminate He.
  - apply computerGame_click, Hcg.
  - apply computerGame_timer, Hcg.
Qed.

(** X6: in a game against the computer that starts with no deferred move
    left over, after any clicks and timers, a move of the computer is
    pending exactly while the game is active and it is O's turn, and never
    more than one is pending; so the game does not wait for a move that
    was never scheduled. *)
Theorem computer_move_pending_iff_its_turn (g : Game) (es : list Event) :
  pendingTimers g = 0%nat ->
  forallb gameEvent es = true ->
  (pendingTimers (run (showGameScreen g "human-computer") es) = 1%nat <->
   gameActive (run (showGameScreen g "human-computer") es) = true
   /\ currentPlayer (run (showGameScreen g "human-computer") es)
      = "O"%string)
  /\ (pendingTimers (run (showGameScreen g "human-computer") es) <= 1)%nat.
Proof.
  intros Hp Hes.
  destruct (computerGame_run _ es Hes (computerGame_start g Hp))
    as [_ _ [(Hact & HO & H1) | [Hother H0]]].
  - rewrite H1. split; [tauto | lia].
  - rewrite H0. split; [| lia]. split; [discriminate |].
    intros [Hact HO]. destruct Hother; congruence.
Qed.

Lemma computer_move_pending_iff_its_turn_witness :
  pendingTimers scriptLoaded = 0%nat
  /\ (pendingTimers
        (run (showGameScreen scriptLoaded "human-computer") [CellClick 4])
      <= 1)%nat.
Proof.
  split; [reflexivity |].
  exact (proj2 (computer_move_pending_iff_its_turn scriptLoaded [CellClick 4]
                  eq_refl eq_refl)).
Defined.

(** X7: in such a game, when the timer fires on O's turn, the computer
    places one O and either the game is over or it is X's turn again, with
    no move pending. *)
Theorem computer_answers_and_hands_over
    (g : Game) (es : list Event) (rnd : Q) :
  pendingTimers g = 0%nat ->
  forallb gameEvent es = true ->
  pendingTimers (run (showGameScreen g "human-computer") es) = 1%nat ->
  marks (board (step (run (showGameScreen g "human-computer") es)
                  (TimerFires rnd)))
  = S (marks (board (run (showGameScreen g "human-computer") es)))
  /\ (gameActive (step (run (showGameScreen g "human-computer") es)
                    (TimerFires rnd)) = false
      \/ currentPlayer (step (run (showGameScreen g "human-computer") es)
                          (TimerFires rnd)) = "X"%string)
  /\ pendingTimers (step (run (showGameScreen g "human-computer") es)
                      (TimerFires rnd)) = 0%nat.
Proof.
  intros Hp Hes H1.
  pose proof (computerGame_run _ es Hes (computerGame_start g Hp)) as Hcg.
  set (s := run (showGameScreen g "human-computer") es) in *.
  pose proof (computerGame_timer s rnd Hcg) as [_ _ Hafter].
  destruct Hcg as [Hwf _ Hpending].
  destruct Hpending as [(Hact & _ & _) | [_ H0]]; [| congruence].
  split.
  - simpl. rewrite H1.
    pose proof (wellFormed_pendingTimers s 0 Hwf) as Hwf0.
    destruct (makeComputerMove_active _ rnd Hwf0 Hact) as [Hcell Hmove].
    rewrite Hmove, settle_board by reflexivity.
    simpl board in *. apply marks_put; [exact Hcell | discriminate].
  - destruct Hafter as [(Ha & HO & Hone) | [Hother H0]].
    + exfalso. revert Hone. simpl. rewrite H1.
      pose proof (wellFormed_pendingTimers s 0 Hwf) as Hwf0.
      destruct (makeComputerMove_active _ rnd Hwf0 Hact) as [_ Hmove].
      rewrite Hmove, settle_unfold. simpl board.
      destruct (firstWinningLine _ winningCombinations) as [[[a b] c] |];
        try destruct (boardFull _); simpl; discriminate.
    + split; assumption.
Qed.

Lemma computer_answers_and_hands_over_witness :
  pendingTimers scriptLoaded = 0%nat
  /\ marks (board (step (run (showGameScreen scriptLoaded "human-computer")
                           [CellClick 4])
                     (TimerFires 0%Q)))
     = 2%nat.
Proof.
  split; [reflexivity |].
  exact (proj1 (computer_answers_and_hands_over scriptLoaded [CellClick 4] 0%Q
                  eq_refl eq_refl eq_refl)).
Defined.

(** ** The win rule and the block rule *)

Lemma two_marks_and_empty (x y z : option string) (p : string) :
  p <> ""%string ->
  (x = Some ""%string /\ y = Some p /\ z = Some p)
  \/ (y = Some ""%string /\ x = Some p /\ z = Some p)
  \/ (z = Some ""%string /\ x = Some p /\ y = Some p) ->
  (length (filter (fun cell => cell = Some p) [x; y; z]) =? 2)%nat
  && bool_decide (Some ""%string ∈ [x; y; z]) = true.
Proof.
  intros Hp Hcases.
  assert (Hne : Some ""%string <> Some p) by congruence.
  destruct Hcases as [(-> & -> & ->) | [(-> & -> & ->) | (-> & -> & ->)]];
    rewrite !filter_cons, filter_nil;
    repeat match goal with
           | |- context [decide (?a = ?b)] => destruct (decide (a = b))
           end; try congruence;
    (apply andb_true_iff; split;
     [reflexivity | apply bool_decide_eq_true; repeat constructor]).
Qed.

(** One turn of the loop of [findWinningOrBlockingMove]: it returns the
    empty cell of the combination when the two other cells hold the mark,
    and goes on to the next combination otherwise. *)
Lemma findWinningOrBlockingMoveFrom_step
    (b : list string) (p : string) (l : Line) (rest : list Line) :
  p <> ""%string ->
  (exists m, threat b p l m
             /\ findWinningOrBlockingMoveFrom b p (l :: rest) = m)
  \/ ((forall m, ~ threat b p l m)
      /\ findWinningOrBlockingMoveFrom b p (l :: rest)
         = findWinningOrBlockingMoveFrom b p rest).
Proof.
  intros Hp. destruct l as [[i j] k]. simpl.
  destruct (cell_is b i "" && js_eq (Some p) (board_at b j)
            && js_eq (Some p) (board_at b k)) eqn:HA.
  { left. exists i.
    apply andb_true_iff in HA as [HA Hk]. apply andb_true_iff in HA as [Hi Hj].
    apply cell_is_true in Hi. apply js_eq_true in Hj, Hk.
    rewrite two_marks_and_empty by (try assumption; left; auto).
    split; [left; auto | reflexivity]. }
  destruct (cell_is b j "" && js_eq (Some p) (board_at b i)
            && js_eq (Some p) (board_at b k)) eqn:HB.
  { left. exists j.
    apply andb_true_iff in HB as [HB Hk]. apply andb_true_iff in HB as [Hj Hi].
    apply cell_is_true in Hj. apply js_eq_true in Hi, Hk.
    rewrite two_marks_and_empty by (try assumption; right; left; auto).
    split; [right; left; auto | reflexivity]. }
  destruct (cell_is b k "" && js_eq (Some p) (board_at b i)
            && js_eq (Some p) (board_at b j)) eqn:HC.
  { left. exists k.
    apply andb_true_iff in HC as [HC Hj]. apply andb_true_iff in HC as [Hk Hi].
    apply cell_is_true in Hk. apply js_eq_true in Hi, Hj.
    rewrite two_marks_and_empty by (try assumption; right; right; auto).
    split; [right; right; auto | reflexivity]. }
  right. split.
  - intros m [(_ & Hi & Hj & Hk) | [(_ & Hj & Hi & Hk) | (_ & Hk & Hi & Hj)]].
    + rewrite (proj2 (cell_is_true b i "") Hi) in HA.
      rewrite (proj2 (js_eq_true (Some p) (board_at b j))) in HA by auto.
      rewrite (proj2 (js_eq_true (Some p) (board_at b k))) in HA by auto.
      discriminate HA.
    + rewrite (proj2 (cell_is_true b j "") Hj) in HB.
      rewrite (proj2 (js_eq_true (Some p) (board_at b i))) in HB by auto.
      rewrite (proj2 (js_eq_true (Some p) (board_at b k))) in HB by auto.
      discriminate HB.
    + rewrite (proj2 (cell_is_true b k "") Hk) in HC.
      rewrite (proj2 (js_eq_true (Some p) (board_at b i))) in HC by auto.
      rewrite (proj2 (js_eq_true (Some p) (board_at b j))) in HC by auto.
      discriminate HC.
  - match goal with
    | |- (if ?cond then _ else _) = _ => destruct cond; reflexivity
    end.
Qed.

Lemma threat_cell_empty (b : list string) (p : string) (l : Line) (m : Z) :
  threat b p l m -> board_at b m = Some ""%string.
Proof.
  destruct l as [[i j] k].
  intros [(-> & H & _) | [(-> & H & _) | (-> & H & _)]]; exact H.
Qed.

Lemma findWinningOrBlockingMoveFrom_spec
    (b : list string) (p : string) (ls : list Line) :
  p <> ""%string ->
  (findWinningOrBlockingMoveFrom b p ls = -1
   /\ forall l m, l ∈ ls -> ~ threat b p l m)
  \/ (exists (earlier : list Line) (l : Line) (later : list Line),
         ls = earlier ++ l :: later
         /\ threat b p l (findWinningOrBlockingMoveFrom b p ls)
         /\ forall l' m', l' ∈ earlier -> ~ threat b p l' m').
Proof.
  intros Hp. induction ls as [| l rest IH].
  - left. split; [reflexivity |]. intros l m Hin.
    apply elem_of_nil in Hin. contradiction.
  - destruct (findWinningOrBlockingMoveFrom_step b p l rest Hp)
      as [(m & Hthreat & Hm) | [Hnone Hnext]].
    + right. exists [], l, rest. split; [reflexivity |].
      split; [rewrite Hm; exact Hthreat |].
      intros l' m' Hin. apply elem_of_nil in Hin. contradiction.
    + rewrite Hnext.
      destruct IH as [[Hr Hall] | (earlier & l0 & later & -> & Hthreat & Hbefore)].
      * left. split; [exact Hr |]. intros l' m' Hin.
        apply elem_of_cons in Hin as [-> | Hin]; [apply Hnone | apply Hall, Hin].
      * right. exists (l :: earlier), l0, later. split; [reflexivity |].
        split; [exact Hthreat |]. intros l' m' Hin.
        apply elem_of_cons in Hin as [-> | Hin];
          [apply Hnone | apply Hbefore, Hin].
Qed.

(** X8: for a mark [p], [findWinningOrBlockingMove] returns -1 exactly
    when no combination holds [p] twice with its third cell empty;
    otherwise it returns that empty third cell of the first such
    combination of the table. *)
Theorem findWinningOrBlockingMove_first_threat (b : list string) (p : string) :
  p <> ""%string ->
  (findWinningOrBlockingMove b p = -1 <->
   forall l m, l ∈ winningCombinations -> ~ threat b p l m)
  /\ (findWinningOrBlockingMove b p <> -1 ->
      exists (earlier : list Line) (l : Line) (later : list Line),
        winningCombinations = earlier ++ l :: later
        /\ threat b p l (findWinningOrBlockingMove b p)
        /\ forall l' m', l' ∈ earlier -> ~ threat b p l' m').
Proof.
  intros Hp. unfold findWinningOrBlockingMove.
  destruct (findWinningOrBlockingMoveFrom_spec b p winningCombinations Hp)
    as [[Hr Hall] | (earlier & l & later & Heq & Hthreat & Hbefore)].
  - split; [split; [intros _; exact Hall | intros _; exact Hr] |].
    intros Hne. contradiction.
  - pose proof (threat_cell_empty _ _ _ _ Hthreat) as Hcell.
    assert (Hne : findWinningOrBlockingMoveFrom b p winningCombinations <> -1).
    { intros Heq'. rewrite Heq' in Hcell. discriminate Hcell. }
    split.
    + split; [intros Hr; contradiction |]. intros Hall. exfalso.
      refine (Hall l _ _ Hthreat).
      rewrite Heq. apply elem_of_app. right. left.
    + intros _. exists earlier, l, later. repeat split; assumption.
Qed.

Lemma findWinningOrBlockingMove_first_threat_witness :
  "X"%string <> ""%string
  /\ (findWinningOrBlockingMove topRowThreat "X" <> -1 ->
      exists (earlier : list Line) (l : Line) (later : list Line),
        winningCombinations = earlier ++ l :: later
        /\ threat topRowThreat "X" l (findWinningOrBlockingMove topRowThreat "X")
        /\ forall l' m', l' ∈ earlier -> ~ threat topRowThreat "X" l' m').
Proof.
  assert (Hp : "X"%string <> ""%string) by discriminate.
  split; [exact Hp |].
  exact (proj2 (findWinningOrBlockingMove_first_threat topRowThreat "X" Hp)).
Defined.

Lemma findWinningOrBlockingMove_threat (b : list string) (p : string) :
  p <> ""%string ->
  (exists l m, l ∈ winningCombinations /\ threat b p l m) ->
  findWinningOrBlockingMove b p <> -1
  /\ exists l, l ∈ winningCombinations
               /\ threat b p l (findWinningOrBlockingMove b p).
Proof.
  intros Hp (l & m & Hin & Hthreat). unfold findWinningOrBlockingMove.
  destruct (findWinningOrBlockingMoveFrom_spec b p winningCombinations Hp)
    as [[_ Hall] | (earlier & l0 & later & Heq & Hthreat0 & _)].
  - exfalso. exact (Hall l m Hin Hthreat).
  - pose proof (threat_cell_empty _ _ _ _ Hthreat0) as Hcell. split.
    + intros Heq'. rewrite Heq' in Hcell. discriminate Hcell.
    + exists l0. split; [| exact Hthreat0].
      rewrite Heq. apply elem_of_app. right. left.
Qed.

Lemma findWinningOrBlockingMove_no_threat (b : list string) (p : string) :
  p <> ""%string ->
  (forall l m, l ∈ winningCombinations -> ~ threat b p l m) ->
  findWinningOrBlockingMove b p = -1.
Proof.
  intros Hp Hall. unfold findWinningOrBlockingMove.
  destruct (findWinningOrBlockingMoveFrom_spec b p winningCombinations Hp)
    as [[Hr _] | (earlier & l0 & later & Heq & Hthreat0 & _)]; [exact Hr |].
  exfalso. refine (Hall l0 _ _ Hthreat0).
  rewrite Heq. apply elem_of_app. right. left.
Qed.

(** The mark completes the combination whose third cell was empty. *)
Lemma threat_completed (b : list string) (p : string) (l : Line) (m : Z) :
  p <> ""%string -> threat b p l m -> heldBy (board_put b m p) p l.
Proof.
  intros Hp Hthreat. destruct l as [[i j] k]. unfold heldBy.
  pose proof (threat_cell_empty _ _ _ _ Hthreat) as Hcell.
  pose proof (board_at_empty_in_range _ _ _ Hcell) as Hr.
  pose proof (board_at_put_same b m ""%string p Hcell) as Hnew.
  assert (Hother : forall n, board_at b n = Some p ->
                             board_at (board_put b m p) n = Some p).
  { intros n Hn. rewrite board_at_put_other; [exact Hn | lia |].
    intros <-. congruence. }
  destruct Hthreat as [(-> & _ & Hj & Hk) | [(-> & _ & Hi & Hk)
                                            | (-> & _ & Hi & Hj)]];
    repeat split; auto.
Qed.

Lemma heldBy_aligned (b : list string) (p : string) (l : Line) :
  p <> ""%string -> heldBy b p l -> aligned b l.
Proof.
  intros Hp. destruct l as [[i j] k]. intros (Hi & Hj & Hk).
  exists p. repeat split; assumption.
Qed.

(** The computer's move on an active game when a cell is chosen. *)
Lemma makeComputerMove_at (g : Game) (rnd : Q) :
  gameActive g = true ->
  board_at (board g) (chooseMove (board g) (availableCells (board g)) rnd)
  = Some ""%string ->
  makeComputerMove g rnd
  = settle computerPlayer
      (fun g =>
         let g := with_currentPlayer humanPlayer g in
         updateStatus (turnMessage (currentPlayer g)) g)
      (with_board
         (board_put (board g)
            (chooseMove (board g) (availableCells (board g)) rnd)
            computerPlayer) g).
Proof.
  intros Hact Hcell. unfold makeComputerMove. rewrite Hact. simpl negb.
  cbv iota. rewrite availableCells_not_empty by (eexists; exact Hcell).
  destruct (Z.eqb_spec (chooseMove (board g) (availableCells (board g)) rnd) (-1))
    as [Heq | _]; [| reflexivity].
  rewrite Heq in Hcell. discriminate Hcell.
Qed.

Lemma chooseMove_keeps (b : list string) (available : list Z) (rnd : Q) :
  let m2 :=
    if findWinningOrBlockingMove b computerPlayer =? -1
    then findWinningOrBlockingMove b humanPlayer
    else findWinningOrBlockingMove b computerPlayer in
  m2 <> -1 -> chooseMove b available rnd = m2.
Proof.
  intros m2 Hne. unfold chooseMove.
  rewrite (strategicMove_keeps b Hne). fold m2.
  destruct (Z.eqb_spec m2 (-1)); [contradiction | reflexivity].
Qed.

(** X9: when the game is active on a board of nine cells and a
    combination holds O twice with its third cell empty, the computer's
    move completes such a combination: the game ends with the banner of
    O's win and O holds a combination. *)
Theorem computer_takes_the_win (g : Game) (rnd : Q) :
  length (board g) = 9%nat ->
  gameActive g = true ->
  (exists l m, l ∈ winningCombinations /\ threat (board g) "O" l m) ->
  gameActive (makeComputerMove g rnd) = false
  /\ statusText (makeComputerMove g rnd) = winMessage "O"
  /\ exists l, l ∈ winningCombinations
               /\ heldBy (board (makeComputerMove g rnd)) "O" l.
Proof.
  intros Hlen Hact Hthreat.
  assert (HO : "O"%string <> ""%string) by discriminate.
  destruct (findWinningOrBlockingMove_threat (board g) "O" HO Hthreat)
    as [Hne (l & Hin & Hl)].
  assert (Hchoose : chooseMove (board g) (availableCells (board g)) rnd
                    = findWinningOrBlockingMove (board g) "O").
  { rewrite chooseMove_keeps; unfold computerPlayer;
      destruct (Z.eqb_spec (findWinningOrBlockingMove (board g) "O") (-1));
      try contradiction; [reflexivity | exact Hne]. }
  pose proof (threat_cell_empty _ _ _ _ Hl) as Hcell.
  pose proof (threat_completed _ _ _ _ HO Hl) as Hheld.
  rewrite makeComputerMove_at by (try exact Hact; rewrite Hchoose; exact Hcell).
  rewrite Hchoose. unfold computerPlayer.
  match goal with
  | |- context [settle ?mover ?k ?g1] =>
      destruct (settle_win mover k g1) as (Hb & _ & Ha & Hs)
  end.
  { apply checkForWin_true_iff; [simpl; rewrite length_board_put; exact Hlen |].
    exists l. split; [exact Hin |]. apply (heldBy_aligned _ "O"); assumption. }
  split; [exact Ha |]. split; [exact Hs |].
  exists l. split; [exact Hin |]. rewrite Hb. exact Hheld.
Qed.

Lemma computer_takes_the_win_witness :
  length (board computerCanWin) = 9%nat
  /\ gameActive (makeComputerMove computerCanWin 0%Q) = false
  /\ statusText (makeComputerMove computerCanWin 0%Q) = winMessage "O"
  /\ exists l, l ∈ winningCombinations
               /\ heldBy (board (makeComputerMove computerCanWin 0%Q)) "O" l.
Proof.
  split; [reflexivity |].
  apply (computer_takes_the_win computerCanWin 0%Q); [reflexivity .. |].
  exists (0, 1, 2), 2. split; [left |]. right; right. repeat split.
Defined.



(** ** The list of the empty cells *)

Lemma availableFrom_cons (k : nat) (c : string) (rest : list string) :
  availableFrom k (c :: rest)
  = if bool_decide (c = ""%string)
    then Z.of_nat k :: availableFrom (S k) rest
    else availableFrom (S k) rest.
Proof.
  unfold availableFrom. rewrite imap_cons, filter_cons.
  assert (Htail :
            imap ((fun index cell =>
                     if bool_decide (cell = ""%string)
                     then Z.of_nat (k + index) else -1) ∘ S) rest
            = imap (fun index cell =>
                      if bool_decide (cell = ""%string)
                      then Z.of_nat (S k + index) else -1) rest).
  { apply imap_ext. intros n x _. simpl.
    replace (k + S n)%nat with (S (k + n)) by lia. reflexivity. }
  rewrite Htail. rewrite Nat.add_0_r.
  case_bool_decide; destruct (decide _) as [Hd | Hd]; try reflexivity; lia.
Qed.

Lemma availableFrom_sorted (k : nat) (b : list string) :
  StronglySorted Z.lt (availableFrom k b)
  /\ Forall (fun index => Z.of_nat k <= index) (availableFrom k b)
  /\ (length (availableFrom k b) + marks b = length b)%nat.
Proof.
  revert k. induction b as [| c rest IH]; intros k.
  - repeat split; constructor.
  - destruct (IH (S k)) as (Hsorted & Hbound & Hcount).
    rewrite availableFrom_cons. unfold marks in *. rewrite filter_cons.
    case_bool_decide as Hc.
    + destruct (decide (c <> ""%string)); [contradiction |].
      split; [| split].
      * constructor; [exact Hsorted |].
        eapply Forall_impl; [exact Hbound |]. simpl. intros x Hx. lia.
      * constructor; [lia |].
        eapply Forall_impl; [exact Hbound |]. simpl. intros x Hx. lia.
      * simpl. lia.
    + destruct (decide (c <> ""%string)); [| contradiction].
      split; [exact Hsorted |]. split.
      * eapply Forall_impl; [exact Hbound |]. simpl. intros x Hx. lia.
      * simpl. lia.
Qed.

(** X11: [availableCells] lists exactly the indices of the empty cells,
    in increasing order and each once; together with the cells that hold a
    mark they make up the board. *)
Theorem availableCells_sorted_complete (b : list string) :
  StronglySorted Z.lt (availableCells b)
  /\ (forall m, m ∈ availableCells b <-> board_at b m = Some ""%string)
  /\ (length (availableCells b) + marks b = length b)%nat.
Proof.
  assert (Hsame : availableCells b = availableFrom 0 b) by reflexivity.
  destruct (availableFrom_sorted 0 b) as (Hsorted & _ & Hcount).
  rewrite Hsame. split; [exact Hsorted |]. split; [| exact Hcount].
  intros m. rewrite <- Hsame. apply availableCells_elem.
Qed.

(** ** An accepted click *)

(** X12: a click on an empty cell of an active game, when it is not the
    computer's turn, writes the mark of the current player into that cell
    and into no other, and leaves the mode as it is.  If the game goes on,
    the current player is the other mark, and a move of the computer is
    scheduled exactly in the mode human against computer when that mark is
    O; if the game ends, the current player and the timers are as
    before. *)
Theorem handleCellClick_accepted (g : Game) (i : Z) :
  cell_is (board g) i "" = true ->
  gameActive g = true ->
  ~ (gameMode g = "human-computer"%string /\ currentPlayer g = "O"%string) ->
  board (handleCellClick g i) = board_put (board g) i (currentPlayer g)
  /\ board_at (board (handleCellClick g i)) i = Some (currentPlayer g)
  /\ (forall j, j <> i ->
                board_at (board (handleCellClick g i)) j = board_at (board g) j)
  /\ gameMode (handleCellClick g i) = gameMode g
  /\ (gameActive (handleCellClick g i) = true ->
      currentPlayer (handleCellClick g i)
      = (if bool_decide (currentPlayer g = "X"%string) then "O"%string
         else "X"%string)
      /\ statusText (handleCellClick g i)
         = turnMessage (currentPlayer (handleCellClick g i))
      /\ pendingTimers (handleCellClick g i)
         = if bool_decide (gameMode g = "human-computer"%string)
              && bool_decide (currentPlayer (handleCellClick g i) = "O"%string)
           then S (pendingTimers g) else pendingTimers g)
  /\ (gameActive (handleCellClick g i) = false ->
      currentPlayer (handleCellClick g i) = currentPlayer g
      /\ pendingTimers (handleCellClick g i) = pendingTimers g).
Proof.
  intros Hcell Hact Hturn.
  assert (Hguard : bool_decide (gameMode g = "human-computer"%string)
                   && bool_decide (currentPlayer g = "O"%string) = false).
  { apply not_true_is_false. intros Hcomp.
    apply andb_true_iff in Hcomp as [Hm Hp].
    apply bool_decide_eq_true in Hm, Hp. tauto. }
  pose proof (proj1 (cell_is_true _ _ _) Hcell) as Hempty.
  pose proof (board_at_empty_in_range _ _ _ Hempty) as Hr.
  assert (Hboard : board (handleCellClick g i)
                   = board_put (board g) i (currentPlayer g)).
  { unfold handleCellClick. rewrite Hcell, Hact, Hguard. simpl negb.
    cbn [orb]. rewrite settle_board; [reflexivity |].
    intros g'. destruct (_ && _ && _); reflexivity. }
  split; [exact Hboard |]. rewrite Hboard.
  split; [apply (board_at_put_same _ _ ""%string), Hempty |].
  split; [intros j Hj; apply board_at_put_other; [lia | congruence] |].
  unfold handleCellClick. rewrite Hcell, Hact, Hguard. simpl negb. cbn [orb].
  rewrite settle_unfold. simpl board.
  destruct (firstWinningLine (board_put (board g) i (currentPlayer g))
              winningCombinations) as [[[a b] c] |].
  { simpl. repeat split; try reflexivity; discriminate. }
  destruct (boardFull (board_put (board g) i (currentPlayer g))).
  { simpl. repeat split; try reflexivity; discriminate. }
  simpl. rewrite Hact, andb_true_r.
  destruct (bool_decide (gameMode g = "human-computer"%string)
            && bool_decide
                 ((if bool_decide (currentPlayer g = "X"%string)
                   then "O"%string else "X"%string) = "O"%string)) eqn:Hs;
    simpl; repeat split; try reflexivity; intros; rewrite ?Hs;
    first [reflexivity | congruence].
Qed.

Lemma handleCellClick_accepted_witness :
  cell_is (board midGame) 4 "" = true
  /\ board (handleCellClick midGame 4)
     = ["X"; "O"; ""; ""; "X"; ""; ""; ""; ""]%string.
Proof.
  split; [reflexivity |].
  refine (proj1 (handleCellClick_accepted midGame 4 eq_refl eq_refl _)).
  intros [Hmode _]. discriminate Hmode.
Defined.

(** ** Witnesses of the turn lemmas *)

Lemma currentPlayer_alternates_without_stale_timer_witness :
  pendingTimers scriptLoaded = 0%nat
  /\ currentPlayer
       (run (showGameScreen scriptLoaded "human-human")
          [CellClick 0; CellClick 4; CellClick 8])
     = playerOfMove 3.
Proof.
  split; [reflexivity |].
  exact (currentPlayer_alternates_without_stale_timer scriptLoaded
           "human-human" [CellClick 0; CellClick 4; CellClick 8]
           eq_refl eq_refl eq_refl).
Defined.

Lemma finished_game_is_frozen_witness :
  gameActive (run pageLoaded topRowGame) = false
  /\ board (step (run pageLoaded topRowGame) (CellClick 5))
     = board (run pageLoaded topRowGame)
  /\ currentPlayer (step (run pageLoaded topRowGame) (CellClick 5))
     = currentPlayer (run pageLoaded topRowGame)
  /\ gameActive (step (run pageLoaded topRowGame) (CellClick 5)) = false
  /\ statusText (step (run pageLoaded topRowGame) (CellClick 5))
     = statusText (run pageLoaded topRowGame).
Proof.
  split; [reflexivity |].
  exact (finished_game_is_frozen (run pageLoaded topRowGame) (CellClick 5)
           eq_refl eq_refl).
Defined.

Lemma terminal_move_keeps_currentPlayer_witness :
  gameActive (run pageLoaded beforeTopRow) = true
  /\ gameActive (step (run pageLoaded beforeTopRow) (CellClick 2)) = false
  /\ currentPlayer (step (run pageLoaded beforeTopRow) (CellClick 2))
     = currentPlayer (run pageLoaded beforeTopRow).
Proof.
  split; [reflexivity |]. split; [reflexivity |].
  exact (terminal_move_keeps_currentPlayer (run pageLoaded beforeTopRow)
           (CellClick 2) eq_refl eq_refl eq_refl).
Defined.

(** ** The centre rule *)

(** X16: when neither O nor X holds two cells of a combination whose third
    cell is empty and the centre is empty, the computer takes the centre,
    whatever else is on the board. *)
Theorem computer_takes_centre (g : Game) (rnd : Q) :
  gameActive g = true ->
  (forall p l m, isMark p -> l ∈ winningCombinations ->
                 ~ threat (board g) p l m) ->
  board_at (board g) 4 = Some ""%string ->
  chooseMove (board g) (availableCells (board g)) rnd = 4
  /\ board (makeComputerMove g rnd) = board_put (board g) 4 "O"
  /\ board_at (board (makeComputerMove g rnd)) 4 = Some "O"%string.
Proof.
  intros Hact Hnone Hcentre.
  assert (Hwin : findWinningOrBlockingMove (board g) computerPlayer = -1).
  { apply findWinningOrBlockingMove_no_threat; [discriminate |].
    intros l m. apply Hnone. right. reflexivity. }
  assert (Hblock : findWinningOrBlockingMove (board g) humanPlayer = -1).
  { apply findWinningOrBlockingMove_no_threat; [discriminate |].
    intros l m. apply Hnone. left. reflexivity. }
  assert (Hchoose : chooseMove (board g) (availableCells (board g)) rnd = 4).
  { unfold chooseMove, strategicMove. cbv zeta. rewrite Hwin, Hblock.
    rewrite (proj2 (cell_is_true _ _ _) Hcentre). known_tests. reflexivity. }
  split; [exact Hchoose |].
  assert (Hboard : board (makeComputerMove g rnd) = board_put (board g) 4 "O").
  { rewrite makeComputerMove_at
      by (try exact Hact; rewrite Hchoose; exact Hcentre).
    rewrite settle_board by reflexivity. simpl. rewrite Hchoose. reflexivity. }
  split; [exact Hboard |]. rewrite Hboard.
  apply (board_at_put_same _ _ ""%string). exact Hcentre.
Qed.

Lemma computer_takes_centre_witness :
  gameActive computerToMove = true
  /\ chooseMove (board computerToMove)
       (availableCells (board computerToMove)) 0%Q = 4.
Proof.
  split; [reflexivity |].
  refine (proj1 (computer_takes_centre computerToMove 0%Q eq_refl _ eq_refl)).
  intros p l m Hp Hin Hthreat. unfold winningCombinations in Hin.
  repeat (apply elem_of_cons in Hin as [-> | Hin];
          [destruct Hp as [-> | ->];
           destruct Hthreat as [(_ & H1 & H2 & H3) | [(_ & H1 & H2 & H3)
                                                     | (_ & H1 & H2 & H3)]];
           vm_compute in H1, H2, H3; congruence |]).
  apply elem_of_nil in Hin. contradiction.
Defined.
